(** * prosKick-back: refresh-token rotation, coordinator and auth gate

    A shallow embedding of the token engine of the back end:
    - the Token Store, [src/models/refresh_token.model.ts];
    - the Token Issuer and the Rotation Protocol, [JWTService] of
      [services/jwt.service];
    - the Refresh Coordinator, [src/services/refresh_queue.service.ts];
    - the Auth Gate, [authenticate_token] of [middleware/auth.middleware],
      in the revision that verifies JWT access tokens.

    How the program is read:
    - an asynchronous method is a function over the collection that
      returns a value or an exception together with the collection it
      leaves; [Date.now()] and [uuidv4()] are explicit arguments, times
      are integers in milliseconds;
    - [jsonwebtoken], the SHA-256 digest and [env] are parameters of the
      services;
    - a call of a method is given one reading of the clock and, taken on
      its own, runs on the collection without interruption; in the
      coordinator a call of [rotate_refresh_token] advances from one
      [await] on the collection to the next, each stretch at its own time,
      so that calls interleave as they do in the program;
    - the database answers every call: the only failures of a write are
      those the schema decides (validation, the unique index). *)

From Stdlib Require Import ZArith Ascii String List Bool Lia DecimalString DecimalZ.
From stdpp Require Import gmap strings list fin_maps.

Local Open Scope string_scope.
Local Open Scope Z_scope.

(** ** JavaScript string primitives used by the sources *)

Module Js.

(** [s.startsWith(p)] *)
Fixpoint startsWith (s p : string) : bool :=
  match p with
  | EmptyString => true
  | String c p' =>
      match s with
      | EmptyString => false
      | String d s' => if Ascii.eqb c d then startsWith s' p' else false
      end
  end.

(** [s.includes(p)]: case-sensitive search for an occurrence of [p]. *)
Fixpoint includes (s p : string) : bool :=
  startsWith s p ||
  match s with
  | EmptyString => false
  | String _ s' => includes s' p
  end.

(** [s.substring(n)] for [0 <= n]. *)
Fixpoint substring_from (n : nat) (s : string) : string :=
  match n, s with
  | O, _ => s
  | S n', String _ s' => substring_from n' s'
  | S _, EmptyString => EmptyString
  end.

(** [s.substring(0, n)] *)
Fixpoint substring_to (n : nat) (s : string) : string :=
  match n, s with
  | S n', String c s' => String c (substring_to n' s')
  | _, _ => EmptyString
  end.

(** [s.slice(-1)]: the last character, or the empty string. *)
Fixpoint slice_last (s : string) : string :=
  match s with
  | EmptyString => EmptyString
  | String c EmptyString => String c EmptyString
  | String _ s' => slice_last s'
  end.

(** [s.slice(0, -1)]: everything but the last character. *)
Fixpoint slice_init (s : string) : string :=
  match s with
  | EmptyString => EmptyString
  | String _ EmptyString => EmptyString
  | String c s' => String c (slice_init s')
  end.

(** Truthiness of a string: only the empty string is falsy. *)
Definition truthy (s : string) : bool :=
  match s with EmptyString => false | String _ _ => true end.

Definition digit_of (c : ascii) : option Z :=
  let n := Z.of_nat (nat_of_ascii c) in
  if (48 <=? n) && (n <=? 57) then Some (n - 48) else None.

(** Reads the longest run of decimal digits at the head of [s]. *)
Fixpoint digits (acc : option Z) (s : string) : option Z :=
  match s with
  | EmptyString => acc
  | String c s' =>
      match digit_of c with
      | Some d => digits (Some (10 * default 0 acc + d)) s'
      | None => acc
      end
  end.

Definition is_space (c : ascii) : bool :=
  let n := nat_of_ascii c in
  (Nat.eqb n 32 || Nat.eqb n 9 || Nat.eqb n 10 || Nat.eqb n 11
   || Nat.eqb n 12 || Nat.eqb n 13)%bool.

Fixpoint skip_spaces (s : string) : string :=
  match s with
  | String c s' => if is_space c then skip_spaces s' else s
  | EmptyString => s
  end.

(** [parseInt(s, 10)]: leading blanks, an optional sign, then digits;
    [None] stands for [NaN]. *)
Definition parseInt (s : string) : option Z :=
  match skip_spaces s with
  | String "-" s' => Z.opp <$> digits None s'
  | String "+" s' => digits None s'
  | s' => digits None s'
  end.

End Js.

(** ** Exceptions and fallible computations *)

(** A thrown JavaScript value: an [Error] carrying its [message], one of
  the two error classes of [jsonwebtoken] ([TokenExpiredError] extends
  [JsonWebTokenError], which extends [Error]), or any other value (for
  which [error instanceof Error] is false). *)
Inductive exn : Type :=
  | Error (message : string)
  | TokenExpiredError (message : string)
  | JsonWebTokenError (message : string)
  | Thrown.

Definition instanceof_Error (e : exn) : bool :=
  match e with Thrown => false | _ => true end.

Definition instanceof_TokenExpiredError (e : exn) : bool :=
  match e with TokenExpiredError _ => true | _ => false end.

Definition instanceof_JsonWebTokenError (e : exn) : bool :=
  match e with TokenExpiredError _ | JsonWebTokenError _ => true | _ => false end.

(** [error.message]; only read after [instanceof Error] succeeded. *)
Definition message_of (e : exn) : string :=
  match e with
  | Error m | TokenExpiredError m | JsonWebTokenError m => m
  | Thrown => ""
  end.

Definition result (A : Type) : Type := exn + A.

Definition throw {A : Type} (e : exn) : result A := inl e.
Definition ret {A : Type} (a : A) : result A := inr a.

Definition bind {A B : Type} (m : result A) (k : A -> result B) : result B :=
  match m with
  | inl e => inl e
  | inr a => k a
  end.

Notation "'let*' x ':=' m 'in' k" := (bind m (fun x => k))
  (at level 10, x pattern, m at level 100, k at level 200).

(** [try { body } catch (error) { handler }] *)
Definition try_catch {A : Type} (body : result A) (handler : exn -> result A) : result A :=
  match body with
  | inl e => handler e
  | inr a => inr a
  end.

(** ** The Token Store: [src/models/refresh_token.model.ts] *)

Inductive e_device_type : Type := web | mobile.

Definition e_device_type_eqb (a b : e_device_type) : bool :=
  match a, b with
  | web, web | mobile, mobile => true
  | _, _ => false
  end.

(** A document of the [refresh_tokens] collection.  Dates are milliseconds
  since the epoch. *)
Record RefreshTokenType : Type := mk_refresh_token {
  user_id : string;
  token_hash : string;
  family_id : string;
  device_type : e_device_type;
  expires_at : Z;
  created_at : Z;
  is_revoked : bool
}.

(** The update document [{ is_revoked: true }]. *)
Definition set_revoked (r : RefreshTokenType) : RefreshTokenType :=
  {| user_id := user_id r;
   token_hash := token_hash r;
   family_id := family_id r;
   device_type := device_type r;
   expires_at := expires_at r;
   created_at := created_at r;
   is_revoked := true |}.

Module RefreshToken.

(** The collection, in insertion order. *)
Definition collection : Type := list RefreshTokenType.

(** [RefreshToken.findOne(filter)]: the first matching document. *)
Fixpoint findOne (filter : RefreshTokenType -> bool) (c : collection)
  : option RefreshTokenType :=
  match c with
  | [] => None
  | r :: c' => if filter r then Some r else findOne filter c'
  end.

(** [RefreshToken.updateOne(filter, { is_revoked: true })]: the first
    matching document is updated, the others are left alone. *)
Fixpoint updateOne (filter : RefreshTokenType -> bool) (c : collection)
  : collection :=
  match c with
  | [] => []
  | r :: c' =>
      if filter r then set_revoked r :: c' else r :: updateOne filter c'
  end.

(** [RefreshToken.updateMany(filter, { is_revoked: true })] *)
Definition updateMany (filter : RefreshTokenType -> bool) (c : collection)
  : collection :=
  List.map (fun r => if filter r then set_revoked r else r) c.

(** [modifiedCount] of an [updateMany]: matching documents whose flag
    really changed. *)
Definition modifiedCount (filter : RefreshTokenType -> bool) (c : collection) : nat :=
  length (List.filter (fun r => filter r && negb (is_revoked r)) c).

(** [modifiedCount] of an [updateOne]. *)
Definition modifiedCountOne (filter : RefreshTokenType -> bool) (c : collection) : nat :=
  match findOne filter c with
  | Some r => if is_revoked r then 0%nat else 1%nat
  | None => 0%nat
  end.

(** [RefreshToken.create(doc)].  The schema is validated first:
    [user_id], [token_hash] and [family_id] are required strings (an empty
    string does not pass [required]) and [expires_at] is a required [Date]
    (an invalid date, [None], does not pass).  [token_hash] carries a unique
    index: a document whose hash is already present is refused.
    [created_at] defaults to [Date.now], read when the document is built: a
    call is given one reading of the clock, [now], which stands for every
    reading it makes. *)
Definition create (uid hash fid : string) (dev : e_device_type)
    (expiry : option Z) (now : Z) (c : collection) : result collection :=
  match expiry with
  | None => throw (Error "RefreshToken validation failed: expires_at")
  | Some e =>
      if negb (Js.truthy uid && Js.truthy hash && Js.truthy fid)
      then throw (Error "RefreshToken validation failed")
      else if existsb (fun r => String.eqb (token_hash r) hash) c
      then throw (Error "E11000 duplicate key error")
      else ret (c ++ [mk_refresh_token uid hash fid dev e now false])%list
  end.

Definition by_token_hash (h : string) (r : RefreshTokenType) : bool :=
  String.eqb (token_hash r) h.
Definition by_family_id (f : string) (r : RefreshTokenType) : bool :=
  String.eqb (family_id r) f.
Definition by_user_id (u : string) (r : RefreshTokenType) : bool :=
  String.eqb (user_id r) u.

(** [statics.revoke_family] *)
Definition revoke_family (fid : string) (c : collection) : collection :=
  updateMany (by_family_id fid) c.

(** [statics.revoke_user_tokens] *)
Definition revoke_user_tokens (uid : string) (c : collection) : collection :=
  updateMany (by_user_id uid) c.

(** [statics.cleanup_expired]: deletes expired documents and revoked
    documents older than thirty days; returns [deletedCount]. *)
Definition cleanup_filter (now : Z) (r : RefreshTokenType) : bool :=
  (expires_at r <? now)
  || (is_revoked r && (created_at r <? now - 30 * 24 * 60 * 60 * 1000)).

Definition cleanup_expired (now : Z) (c : collection) : nat * collection :=
  (length (List.filter (cleanup_filter now) c),
   List.filter (fun r => negb (cleanup_filter now r)) c).

End RefreshToken.

(** ** Stateful computations over the collection

  An asynchronous method that reads or writes the collection and may
  throw: the collection survives an exception, as the writes done before
  the [throw] are not undone. *)

Definition io (A : Type) : Type :=
  RefreshToken.collection -> result A * RefreshToken.collection.

Definition io_ret {A : Type} (a : A) : io A := fun c => (inr a, c).
Definition io_throw {A : Type} (e : exn) : io A := fun c => (inl e, c).
Definition io_lift {A : Type} (r : result A) : io A := fun c => (r, c).

Definition io_bind {A B : Type} (m : io A) (k : A -> io B) : io B :=
  fun c =>
  match m c with
  | (inl e, c') => (inl e, c')
  | (inr a, c') => k a c'
  end.

(** [try { body } catch (error) { handler(error) }] *)
Definition io_try {A : Type} (body : io A) (handler : exn -> io A) : io A :=
  fun c =>
  match body c with
  | (inl e, c') => handler e c'
  | (inr a, c') => (inr a, c')
  end.

(** Reading and writing the collection. *)
Definition io_read {A : Type} (f : RefreshToken.collection -> A) : io A :=
  fun c => (inr (f c), c).
Definition io_write (f : RefreshToken.collection -> RefreshToken.collection) : io unit :=
  fun c => (inr tt, f c).
Definition io_write_res (f : RefreshToken.collection -> result RefreshToken.collection)
  : io unit :=
  fun c =>
  match f c with
  | inl e => (inl e, c)
  | inr c' => (inr tt, c')
  end.

Notation "'await' x '<-' m ';' k" := (io_bind m (fun x => k))
  (at level 20, x pattern, m at level 100, k at level 200, only parsing).

(** ** Configuration: [src/config/environment.ts] *)

Record Environment : Type := {
  JWT_SECRET : string;
  JWT_REFRESH_SECRET : string;
  JWT_ACCESS_EXPIRY : string;
  JWT_REFRESH_EXPIRY_WEB : string;
  JWT_REFRESH_EXPIRY_MOBILE : string
}.

(** The defaults of [envSchema]. *)
Definition default_env : Environment := {|
  JWT_SECRET :=
  "mi-clave-secreta-super-segura-de-al-menos-32-caracteres-para-desarrollo";
  JWT_REFRESH_SECRET :=
  "mi-refresh-secret-super-segura-de-al-menos-32-caracteres-para-desarrollo";
  JWT_ACCESS_EXPIRY := "15m";
  JWT_REFRESH_EXPIRY_WEB := "7d";
  JWT_REFRESH_EXPIRY_MOBILE := "90d"
|}.

(** ** Token payloads and results: [src/services/jwt.service.ts] *)

(** [IAccessTokenPayload]: [{ user_id, type: "access" }]. *)
Record IAccessTokenPayload : Type := { access_user_id : string }.

(** [IRefreshTokenPayload]: [{ user_id, family_id, device_type, type: "refresh" }]. *)
Record IRefreshTokenPayload : Type := {
  refresh_user_id : string;
  refresh_family_id : string;
  refresh_device_type : e_device_type
}.

(** What the service signs, and so what a verified token decodes to. *)
Inductive jwt_payload : Type :=
  | access_payload (p : IAccessTokenPayload)
  | refresh_payload (p : IRefreshTokenPayload).

(** The [type] claim. *)
Definition payload_type (p : jwt_payload) : string :=
  match p with
  | access_payload _ => "access"
  | refresh_payload _ => "refresh"
  end.

Definition payload_user_id (p : jwt_payload) : string :=
  match p with
  | access_payload a => access_user_id a
  | refresh_payload r => refresh_user_id r
  end.

Record ITokenPair : Type := {
  access_token : string;
  refresh_token : string;
  access_expires_in : string;
  refresh_expires_in : string
}.

(** [ITokenRotationResult]; an absent optional field is [None]. *)
Record ITokenRotationResult : Type := {
  success : bool;
  tokens : option ITokenPair;
  error : option string;
  should_logout : option bool
}.

(** The [jsonwebtoken] package as the service uses it.
  [sign payload secret expiresIn now] is [jwt.sign(payload, secret,
  { expiresIn })] evaluated at time [now]; [verify token secret now] is
  [jwt.verify(token, secret)] evaluated at time [now], which returns the
  decoded payload or throws. *)
Record JsonWebToken : Type := {
  sign : jwt_payload -> string -> string -> Z -> result string;
  verify : string -> string -> Z -> result jwt_payload
}.

(** ** The Token Issuer and the Rotation Protocol: [JWTService] *)

Section JWTService.

(** The packages and the configuration the service is linked with:
    [jsonwebtoken], the SHA-256 hex digest of [crypto], and [env]. *)
Variable jwt : JsonWebToken.
Variable sha256_hex : string -> string.
Variable env : Environment.

(** [hash_token]: [crypto.createHash("sha256").update(token).digest("hex")] *)
Definition hash_token (token : string) : string := sha256_hex token.

(** The [multipliers] table; [None] is [undefined]. *)
Definition multipliers (unit : string) : option Z :=
  if String.eqb unit "s" then Some 1000
  else if String.eqb unit "m" then Some (60 * 1000)
  else if String.eqb unit "h" then Some (60 * 60 * 1000)
  else if String.eqb unit "d" then Some (24 * 60 * 60 * 1000)
  else None.

(** [new Date(ms)]: [None] is an invalid date ([NaN], or out of the range
    of a [Date]). *)
Definition new_Date (ms : option Z) : option Z :=
  match ms with
  | Some t => if Z.abs t <=? 8640000000000000 then Some t else None
  | None => None
  end.

(** [calculate_expiry] *)
Definition calculate_expiry (expiry_string : string) (now : Z) : result (option Z) :=
  let unit := Js.slice_last expiry_string in
  let value := Js.parseInt (Js.slice_init expiry_string) in
  match multipliers unit with
  | None => throw (Error ("Invalid expiry format: " ++ expiry_string))
  | Some multiplier =>
      ret (new_Date ((fun v => now + v * multiplier) <$> value))
  end.

(** [generate_token_pair].  [family_id = None] is an omitted argument;
    [uuid] is the value [uuidv4()] returns if it is called. *)
Definition generate_token_pair (uid : string) (dev : e_device_type)
    (fid : option string) (uuid : string) (now : Z) : io ITokenPair :=
  io_try
    (let token_family_id :=
       match fid with
       | Some f => if Js.truthy f then f else uuid
       | None => uuid
       end in
     let refresh_expiry :=
       if e_device_type_eqb dev mobile
       then JWT_REFRESH_EXPIRY_MOBILE env
       else JWT_REFRESH_EXPIRY_WEB env in
     let access_payload_ := access_payload {| access_user_id := uid |} in
     await access_tok <-
       io_lift (sign jwt access_payload_ (JWT_SECRET env) (JWT_ACCESS_EXPIRY env) now);
     let refresh_payload_ :=
       refresh_payload {| refresh_user_id := uid;
                          refresh_family_id := token_family_id;
                          refresh_device_type := dev |} in
     await refresh_tok <-
       io_lift (sign jwt refresh_payload_ (JWT_REFRESH_SECRET env) refresh_expiry now);
     let hash := hash_token refresh_tok in
     await expiry <- io_lift (calculate_expiry refresh_expiry now);
     await _ <- io_write_res
                  (RefreshToken.create uid hash token_family_id dev expiry now);
     io_ret {| access_token := access_tok;
               refresh_token := refresh_tok;
               access_expires_in := JWT_ACCESS_EXPIRY env;
               refresh_expires_in := refresh_expiry |})
    (fun _ => io_throw (Error "Failed to generate authentication tokens")).

(** [verify_access_token] *)
Definition verify_access_token (token : string) (now : Z) : result IAccessTokenPayload :=
  try_catch
    (let* decoded := verify jwt token (JWT_SECRET env) now in
     match decoded with
     | access_payload p => ret p
     | refresh_payload _ => throw (Error "Invalid token type")
     end)
    (fun error =>
       if instanceof_TokenExpiredError error
       then throw (Error "Access token expired")
       else if instanceof_JsonWebTokenError error
       then throw (Error "Invalid access token")
       else throw error).

(** [verify_refresh_token] *)
Definition verify_refresh_token (token : string) (now : Z) : result IRefreshTokenPayload :=
  try_catch
    (let* decoded := verify jwt token (JWT_REFRESH_SECRET env) now in
     match decoded with
     | refresh_payload p => ret p
     | access_payload _ => throw (Error "Invalid token type")
     end)
    (fun error =>
       if instanceof_TokenExpiredError error
       then throw (Error "Refresh token expired")
       else if instanceof_JsonWebTokenError error
       then throw (Error "Invalid refresh token")
       else throw error).

(** The three failure results of [rotate_refresh_token]. *)
Definition reuse_detected : ITokenRotationResult :=
  {| success := false; tokens := None;
     error := Some "Token reuse detected. Please login again.";
     should_logout := Some true |}.

Definition rotation_failure (msg : string) : ITokenRotationResult :=
  {| success := false; tokens := None;
     error := Some msg;
     should_logout := Some false |}.

Definition rotation_success (new_tokens : ITokenPair) : ITokenRotationResult :=
  {| success := true; tokens := Some new_tokens;
     error := None; should_logout := None |}.

(** The [catch] block of [rotate_refresh_token]. *)
Definition rotate_catch (error : exn) : ITokenRotationResult :=
  if instanceof_Error error
     && (Js.includes (message_of error) "expired"
         || Js.includes (message_of error) "invalid")
  then rotation_failure (message_of error)
  else rotation_failure "Failed to refresh token".

(** The [try] block of [rotate_refresh_token]. *)
Definition rotate_try (token uuid : string) (now : Z) : io ITokenRotationResult :=
  (* 1. verify *)
  await decoded <- io_lift (verify_refresh_token token now);
  (* 2. look the token up *)
  let hash := hash_token token in
  await stored_token <- io_read (RefreshToken.findOne (RefreshToken.by_token_hash hash));
  let reuse :=
    (* 3. reuse: revoke the whole family *)
    (await _ <- io_write (RefreshToken.updateMany
                   (RefreshToken.by_family_id (refresh_family_id decoded)));
     io_ret reuse_detected) in
  match stored_token with
  | None => reuse
  | Some stored =>
      if is_revoked stored then reuse
      else if expires_at stored <? now then
        (* 4. expired record *)
        await _ <- io_write (RefreshToken.updateOne (RefreshToken.by_token_hash hash));
        io_ret (rotation_failure "Refresh token expired")
      else
        (* 5. consume, 6. issue the next pair in the same family *)
        await _ <- io_write (RefreshToken.updateOne (RefreshToken.by_token_hash hash));
        await new_tokens <-
          generate_token_pair (refresh_user_id decoded)
            (refresh_device_type decoded)
            (Some (refresh_family_id decoded)) uuid now;
        io_ret (rotation_success new_tokens)
  end.

(** [rotate_refresh_token] *)
Definition rotate_refresh_token (token uuid : string) (now : Z)
  : io ITokenRotationResult :=
  io_try (rotate_try token uuid now)
         (fun error => io_ret (rotate_catch error)).

(** [revoke_refresh_token]: [modifiedCount > 0]. *)
Definition revoke_refresh_token (token : string) : io bool :=
  let hash := hash_token token in
  await n <- io_read (RefreshToken.modifiedCountOne (RefreshToken.by_token_hash hash));
  await _ <- io_write (RefreshToken.updateOne (RefreshToken.by_token_hash hash));
  io_ret (0 <? n)%nat.

Definition active_of_user (uid : string) (r : RefreshTokenType) : bool :=
  RefreshToken.by_user_id uid r && negb (is_revoked r).

Definition active_of_family (fid : string) (r : RefreshTokenType) : bool :=
  RefreshToken.by_family_id fid r && negb (is_revoked r).

(** [revoke_all_user_tokens]: revokes [{ user_id, is_revoked: false }]. *)
Definition revoke_all_user_tokens (uid : string) : io nat :=
  await n <- io_read (RefreshToken.modifiedCount (active_of_user uid));
  await _ <- io_write (RefreshToken.updateMany (active_of_user uid));
  io_ret n.

(** [revoke_token_family]: revokes [{ family_id, is_revoked: false }]. *)
Definition revoke_token_family (fid : string) : io nat :=
  await n <- io_read (RefreshToken.modifiedCount (active_of_family fid));
  await _ <- io_write (RefreshToken.updateMany (active_of_family fid));
  io_ret n.

End JWTService.

(** ** The Rotation Protocol between its [await]s

  A call of [rotate_refresh_token] gives up control at every [await] on
  the collection, where other calls may read and write.  Between these
  points three stretches of code run without interruption, each ending
  with one operation on the collection: the verification and the
  [findOne]; the checks on what was found and the [updateMany] or
  [updateOne] they lead to; and [generate_token_pair], whose one operation
  is the [create] at its end. *)

(** Where a call of [rotate_refresh_token] is suspended, with the locals it
    holds: not yet started; [findOne] has resolved to [stored_token]; the
    [updateOne] of step 5 has resolved. *)
Inductive suspended : Type :=
  | at_entry
  | at_lookup (decoded : IRefreshTokenPayload) (stored_token : option RefreshTokenType)
  | at_issue (decoded : IRefreshTokenPayload).

Section RotationSteps.

Variable jwt : JsonWebToken.
Variable sha256_hex : string -> string.
Variable env : Environment.

(** One stretch of [rotate_refresh_token] on [token], run at time [now]
    from the suspension [p] on the collection as it is then: the next
    suspension, or the value the call returns.  The [await] on
    [verify_refresh_token] reads and writes nothing that is shared, so the
    first stretch runs through it to the [findOne]; an exception in any
    stretch is caught by the [catch] block of the call. *)
Definition resume (token uuid : string) (now : Z) (p : suspended)
    (c : RefreshToken.collection)
  : (suspended + ITokenRotationResult) * RefreshToken.collection :=
  let hash := hash_token sha256_hex token in
  match p with
  | at_entry =>
      (* 1. verify, 2. look the token up *)
      match verify_refresh_token jwt env token now with
      | inl error => (inr (rotate_catch error), c)
      | inr decoded =>
          (inl (at_lookup decoded
                  (RefreshToken.findOne (RefreshToken.by_token_hash hash) c)), c)
      end
  | at_lookup decoded stored_token =>
      let reuse :=
        (* 3. reuse: revoke the whole family *)
        (inr reuse_detected,
         RefreshToken.updateMany
           (RefreshToken.by_family_id (refresh_family_id decoded)) c) in
      match stored_token with
      | None => reuse
      | Some stored =>
          if is_revoked stored then reuse
          else if expires_at stored <? now then
            (* 4. expired record *)
            (inr (rotation_failure "Refresh token expired"),
             RefreshToken.updateOne (RefreshToken.by_token_hash hash) c)
          else
            (* 5. consume *)
            (inl (at_issue decoded),
             RefreshToken.updateOne (RefreshToken.by_token_hash hash) c)
      end
  | at_issue decoded =>
      (* 6. issue the next pair in the same family *)
      match generate_token_pair jwt sha256_hex env (refresh_user_id decoded)
              (refresh_device_type decoded)
              (Some (refresh_family_id decoded)) uuid now c with
      | (inr new_tokens, c') => (inr (rotation_success new_tokens), c')
      | (inl error, c') => (inr (rotate_catch error), c')
      end
  end.

(** [k] stretches in a row, with nothing in between and the clock at
    [now]: the value returned, if the call ends with the [k]-th. *)
Fixpoint resume_to_end (k : nat) (token uuid : string) (now : Z) (p : suspended)
    (c : RefreshToken.collection)
  : option (ITokenRotationResult * RefreshToken.collection) :=
  match k with
  | O => None
  | S k' =>
      match resume token uuid now p c with
      | (inr r, c') => match k' with O => Some (r, c') | S _ => None end
      | (inl p', c') => resume_to_end k' token uuid now p' c'
      end
  end.

End RotationSteps.

(** ** The Refresh Coordinator: [RefreshQueueService]

  The BullMQ queue is a map from job ids to jobs.  [Queue.add] with a
  [jobId] that is already present adds nothing and hands back the job
  that is there; the worker takes a job that has not run, runs
  [process_refresh_job] on it and stores what it returns as the job's
  return value, and the job stays in the queue; [waitUntilFinished]
  resolves with that value, or rejects once its 30000 ms time-to-live has
  run out (the timer does not fire early; how late it fires is left
  open).

  The service is a step machine.  Its state holds the collection, the
  queue, the callers suspended in [waitUntilFinished], and the calls of
  [rotate_refresh_token] in progress, each owned by the worker (for a
  job) or by a caller of [add_refresh_job] (the degraded path and the
  [catch] path).  A call in progress advances one stretch at a time, so
  that calls interleave at their [await]s.  Every event carries the time
  at which it happens; time does not run backwards.  The queue and the
  collection themselves do not fail. *)

Record Job : Type := {
  job_data : string;                           (* [{ refresh_token }] *)
  returnvalue : option ITokenRotationResult    (* set on completion *)
}.

(** A caller suspended in [job.waitUntilFinished] since [waiter_since]. *)
Record Waiter : Type := {
  waiter_id : nat;
  waiter_job : string;
  waiter_token : string;
  waiter_since : Z
}.

(** Who called [rotate_refresh_token]: the worker, for the job [job_id],
    or the [i]-th caller of [add_refresh_job]. *)
Inductive owner : Type :=
  | worker (job_id : string)
  | caller (i : nat).

Definition owner_eqb (a b : owner) : bool :=
  match a, b with
  | worker x, worker y => String.eqb x y
  | caller i, caller j => Nat.eqb i j
  | _, _ => false
  end.

Definition is_worker (o : owner) : bool :=
  match o with worker _ => true | caller _ => false end.

(** A call of [rotate_refresh_token] in progress. *)
Record Rotation : Type := {
  rotation_owner : owner;
  rotation_token : string;
  rotation_at : suspended
}.

Record Coordinator : Type := {
  store : RefreshToken.collection;
  queue : option (gmap string Job);            (* [this.queue], [None] is null *)
  waiting : list Waiter;
  running : list Rotation;
  (* every call of [rotate_refresh_token] that has returned, with its value *)
  rotations : list (string * ITokenRotationResult);
  (* what [add_refresh_job] returned to each caller, with the token it gave *)
  returned : list (nat * string * ITokenRotationResult);
  clock : Z
}.

(** What happens: caller [i] calls [add_refresh_job(token)]; the worker
    takes a job; the call of [o] runs its next stretch, [uuid] being what
    [uuidv4()] returns if it is called; the wait of caller [i] resolves;
    the wait of caller [i] is rejected. *)
Inductive event : Type :=
  | Submit (i : nat) (token : string) (now : Z)
  | Take (job_id : string) (now : Z)
  | Resume (o : owner) (uuid : string) (now : Z)
  | Settle (i : nat) (now : Z)
  | Timeout (i : nat) (now : Z).

Definition time_of (ev : event) : Z :=
  match ev with
  | Submit _ _ now => now
  | Take _ now => now
  | Resume _ _ now => now
  | Settle _ now => now
  | Timeout _ now => now
  end.

(** The time-to-live passed to [waitUntilFinished], in milliseconds. *)
Definition wait_timeout_ms : Z := 30000.

(** The [concurrency] of the worker. *)
Definition worker_concurrency : nat := 5.

Section RefreshQueueService.

Variable jwt : JsonWebToken.
Variable sha256_hex : string -> string.
Variable env : Environment.

(** [create_job_id]: the first 32 hex digits of the SHA-256 digest. *)
Definition create_job_id (token : string) : string :=
  Js.substring_to 32 (sha256_hex token).

(** [Queue.add(name, data, { jobId })] *)
Definition queue_add (job_id token : string) (q : gmap string Job) : gmap string Job :=
  match q !! job_id with
  | Some _ => q
  | None => <[job_id := {| job_data := token; returnvalue := None |}]> q
  end.

(** [process_refresh_job] *)
Definition process_refresh_job (job : Job) (uuid : string) (now : Z)
  : io ITokenRotationResult :=
  io_try (rotate_refresh_token jwt sha256_hex env (job_data job) uuid now)
         (fun _ => io_ret {| success := false; tokens := None;
                             error := Some "Internal error during token refresh";
                             should_logout := Some false |}).

(** [o] calls [jwt_service.rotate_refresh_token(token)]. *)
Definition start (o : owner) (token : string) (st : Coordinator) : Coordinator :=
  {| store := store st; queue := queue st; waiting := waiting st;
     running := running st ++
       [{| rotation_owner := o; rotation_token := token; rotation_at := at_entry |}];
     rotations := rotations st; returned := returned st; clock := clock st |}.

(** The call of [o] on [token] returns [r]: to the worker, where
    [process_refresh_job] hands it on as the return value of the job (its
    [catch] is for a call that throws, and none does), or to the caller,
    whose [add_refresh_job] returns it. *)
Definition finish (o : owner) (token : string) (r : ITokenRotationResult)
    (st : Coordinator) : Coordinator :=
  match o with
  | worker job_id =>
      {| store := store st;
         queue := (fun q => <[job_id := {| job_data := token;
                                           returnvalue := Some r |}]> q) <$> queue st;
         waiting := waiting st; running := running st;
         rotations := rotations st ++ [(token, r)];
         returned := returned st; clock := clock st |}
  | caller i =>
      {| store := store st; queue := queue st;
         waiting := waiting st; running := running st;
         rotations := rotations st ++ [(token, r)];
         returned := returned st ++ [(i, token, r)];
         clock := clock st |}
  end.

Fixpoint take_waiter (i : nat) (ws : list Waiter) : option (Waiter * list Waiter) :=
  match ws with
  | [] => None
  | w :: ws' =>
      if Nat.eqb (waiter_id w) i then Some (w, ws')
      else match take_waiter i ws' with
           | Some (w', rest) => Some (w', w :: rest)
           | None => None
           end
  end.

Fixpoint take_rotation (o : owner) (rs : list Rotation)
  : option (Rotation * list Rotation) :=
  match rs with
  | [] => None
  | th :: rs' =>
      if owner_eqb (rotation_owner th) o then Some (th, rs')
      else match take_rotation o rs' with
           | Some (th', rest) => Some (th', th :: rest)
           | None => None
           end
  end.

(** What the event does; [None] when it cannot happen in this state. *)
Definition fire (ev : event) (st : Coordinator) : option Coordinator :=
  match ev with
  | Submit i token now =>
      (* [add_refresh_job] up to its first suspension *)
      match queue st with
      | None => Some (start (caller i) token st)
      | Some q =>
          let job_id := create_job_id token in
          Some {| store := store st;
                  queue := Some (queue_add job_id token q);
                  waiting := waiting st ++
                    [{| waiter_id := i; waiter_job := job_id;
                        waiter_token := token; waiter_since := now |}];
                  running := running st;
                  rotations := rotations st;
                  returned := returned st;
                  clock := clock st |}
      end
  | Take job_id now =>
      (* the worker takes a job that has not run and is not running,
         while it has a slot free *)
      match queue st with
      | Some q =>
          match q !! job_id with
          | Some job =>
              match returnvalue job with
              | Some _ => None
              | None =>
                  if existsb (fun th => owner_eqb (rotation_owner th) (worker job_id))
                       (running st)
                  then None
                  else if (worker_concurrency <=?
                           length (List.filter (fun th => is_worker (rotation_owner th))
                                     (running st)))%nat
                  then None
                  else Some (start (worker job_id) (job_data job) st)
              end
          | None => None
          end
      | None => None
      end
  | Resume o uuid now =>
      (* an [await] of the call of [o] resolves: its next stretch runs *)
      match take_rotation o (running st) with
      | Some (th, rest) =>
          match resume jwt sha256_hex env (rotation_token th) uuid now (rotation_at th)
                  (store st) with
          | (inl p, c') =>
              Some {| store := c'; queue := queue st; waiting := waiting st;
                      running := rest ++
                        [{| rotation_owner := rotation_owner th;
                            rotation_token := rotation_token th;
                            rotation_at := p |}];
                      rotations := rotations st; returned := returned st;
                      clock := clock st |}
          | (inr r, c') =>
              Some (finish (rotation_owner th) (rotation_token th) r
                      {| store := c'; queue := queue st; waiting := waiting st;
                         running := rest;
                         rotations := rotations st; returned := returned st;
                         clock := clock st |})
          end
      | None => None
      end
  | Settle i now =>
      (* [waitUntilFinished] resolves: [return result] *)
      match take_waiter i (waiting st), queue st with
      | Some (w, rest), Some q =>
          match q !! waiter_job w with
          | Some job =>
              match returnvalue job with
              | Some r =>
                  Some {| store := store st; queue := queue st; waiting := rest;
                          running := running st;
                          rotations := rotations st;
                          returned := returned st ++ [(i, waiter_token w, r)];
                          clock := clock st |}
              | None => None
              end
          | None => None
          end
      | _, _ => None
      end
  | Timeout i now =>
      (* [waitUntilFinished] rejects when its time-to-live has run out: the
         [catch] block calls [rotate_refresh_token] *)
      match take_waiter i (waiting st) with
      | Some (w, rest) =>
          if waiter_since w + wait_timeout_ms <=? now
          then Some (start (caller i) (waiter_token w)
                       {| store := store st; queue := queue st; waiting := rest;
                          running := running st;
                          rotations := rotations st; returned := returned st;
                          clock := clock st |})
          else None
      | None => None
      end
  end.

(** The clock moved to [now]. *)
Definition tick (now : Z) (st : Coordinator) : Coordinator :=
  {| store := store st; queue := queue st; waiting := waiting st;
     running := running st; rotations := rotations st; returned := returned st;
     clock := now |}.

(** One step of the coordinator; [None] when the event cannot happen in
    this state, or lies in the past. *)
Definition step (ev : event) (st : Coordinator) : option Coordinator :=
  if clock st <=? time_of ev then fire ev (tick (time_of ev) st) else None.

Fixpoint run (evs : list event) (st : Coordinator) : option Coordinator :=
  match evs with
  | [] => Some st
  | ev :: evs' =>
      match step ev st with
      | Some st' => run evs' st'
      | None => None
      end
  end.

(** The service after [initialize] at time [now], with Redis reachable or
    not. *)
Definition initial (redis_available : bool) (c : RefreshToken.collection) (now : Z)
  : Coordinator :=
  {| store := c;
     queue := if redis_available then Some ∅ else None;
     waiting := []; running := []; rotations := []; returned := [];
     clock := now |}.

End RefreshQueueService.

(** ** The Auth Gate: [authenticate_token]

    The middleware that takes the access token from the [access_token]
    cookie or the [Authorization] header and verifies it with
    [jwt_service.verify_access_token]. *)

(** What the middleware reads of an Express request: the parsed cookies
  ([None] when [req.cookies] is undefined) and the [Authorization]
  header. *)
Record Request : Type := {
  cookies : option (gmap string string);
  authorization : option string
}.

(** [res.status(code).json({ error, message })] *)
Record Response : Type := {
  status : Z;
  body_error : string;
  body_message : string
}.

(** A document of the users collection, as far as the gate reads it. *)
Record IUser : Type := {
  user_oid : string;
  email : string;
  roles : list string
}.

(** [req.user] *)
Record RequestUser (Profile : Type) : Type := {
  id : string;
  user_email : option string;
  user_roles : list string;
  player_profile : option Profile
}.
Arguments id {Profile}.
Arguments user_email {Profile}.
Arguments user_roles {Profile}.
Arguments player_profile {Profile}.

(** The middleware either answers the request or calls [next()] with
  [req.user] set. *)
Inductive outcome (Profile : Type) : Type :=
  | Respond (r : Response)
  | Next (u : RequestUser Profile).
Arguments Respond {Profile}.
Arguments Next {Profile}.

Inductive token_source : Type := from_cookie | from_header.

Section AuthMiddleware.

Variable jwt : JsonWebToken.
Variable env : Environment.

(** The collaborators: [User.findById] and
    [auth_service.get_player_profile_by_user_id]. *)
Variable Profile : Type.
Variable findById : string -> result (option IUser).
Variable get_player_profile_by_user_id : string -> result (option Profile).

(** A cookie or header value that is present and not the empty string. *)
Definition truthy_opt (v : option string) : bool :=
  match v with
  | Some s => Js.truthy s
  | None => false
  end.

Definition cookie (name : string) (req : Request) : option string :=
  match cookies req with
  | Some jar => jar !! name
  | None => None
  end.

(** The header branch of the extraction: [token] is assigned only when
    the header starts with ["Bearer "]. *)
Definition header_token (req : Request) : option string * option token_source :=
  match authorization req with
  | Some auth_header =>
      if Js.truthy auth_header then
        if Js.startsWith auth_header "Bearer "
        then (Some (Js.substring_from 7 auth_header), Some from_header)
        else (None, None)
      else (None, None)
  | None => (None, None)
  end.

(** Token extraction, [(token, token_source)]: the [access_token] cookie
    first, then the [Authorization] header. *)
Definition extract_token (req : Request) : option string * option token_source :=
  if truthy_opt (cookie "access_token" req)
  then (cookie "access_token" req, Some from_cookie)
  else header_token req.

Definition token_required : Response :=
  {| status := 401;
     body_error := "Token de acceso requerido";
     body_message := "Debes incluir un token de autorización (cookie o header)" |}.

Definition user_not_found : Response :=
  {| status := 401;
     body_error := "Usuario no encontrado";
     body_message := "El usuario no existe en nuestra base de datos" |}.

Definition token_expired : Response :=
  {| status := 401;
     body_error := "Token expirado";
     body_message := "El token de acceso ha expirado. Refrescá tu sesión." |}.

Definition token_invalid : Response :=
  {| status := 401;
     body_error := "Token inválido";
     body_message := "El token de acceso no es válido" |}.

Definition authentication_error (msg : string) : Response :=
  {| status := 401;
     body_error := "Error de autenticación";
     body_message := if Js.truthy msg then msg else "Error desconocido" |}.

Definition internal_error : Response :=
  {| status := 500;
     body_error := "Error de autenticación";
     body_message := "Error interno del servidor" |}.

(** The [catch] block of [authenticate_token]. *)
Definition authenticate_catch (error : exn) : Response :=
  if instanceof_Error error then
    if Js.includes (message_of error) "expired" then token_expired
    else if Js.includes (message_of error) "invalid" then token_invalid
    else authentication_error (message_of error)
  else internal_error.

(** The [try] block of [authenticate_token]. *)
Definition authenticate_try (req : Request) (now : Z) : result (outcome Profile) :=
  match fst (extract_token req) with
  | Some token =>
      if negb (Js.truthy token) then ret (Respond token_required)
      else
        let* decoded_token := verify_access_token jwt env token now in
        let* user := findById (access_user_id decoded_token) in
        match user with
        | None => ret (Respond user_not_found)
        | Some u =>
            let* profile := get_player_profile_by_user_id (user_oid u) in
            ret (Next {| id := user_oid u;
                         user_email := if Js.truthy (email u) then Some (email u) else None;
                         user_roles := roles u;
                         player_profile := profile |})
        end
  | None => ret (Respond token_required)
  end.

(** [authenticate_token] *)
Definition authenticate_token (req : Request) (now : Z) : outcome Profile :=
  match authenticate_try req now with
  | inr o => o
  | inl error => Respond (authenticate_catch error)
  end.

End AuthMiddleware.

(** ** A small implementation of the packages

  A textbook stand-in for [jsonwebtoken] and the digest, used to run the
  services on concrete inputs: a token spells out the signing secret, the
  claims and [exp] (in seconds), each field escaped so that decoding is
  unambiguous. *)

Module SimpleJwt.

(** Writes [s] in front of [rest]: every character is preceded by ["+"],
    and ["."] closes the field. *)
Fixpoint put (s rest : string) : string :=
  match s with
  | EmptyString => String "." rest
  | String c s' => String "+" (String c (put s' rest))
  end.

(** Reads one field back, with what follows it. *)
Fixpoint get (t : string) : option (string * string) :=
  match t with
  | String "." rest => Some (EmptyString, rest)
  | String "+" (String c t') =>
      match get t' with
      | Some (s, rest) => Some (String c s, rest)
      | None => None
      end
  | _ => None
  end.

Definition device_name (d : e_device_type) : string :=
  match d with web => "web" | mobile => "mobile" end.

Definition device_of_name (s : string) : option e_device_type :=
  if String.eqb s "web" then Some web
  else if String.eqb s "mobile" then Some mobile
  else None.

Definition exp_to_string (exp : Z) : string :=
  NilEmpty.string_of_int (Z.to_int exp).

Definition exp_of_string (s : string) : option Z :=
  Z.of_int <$> NilEmpty.int_of_string s.

(** The lifetime in seconds of an [expiresIn] such as ["15m"]. *)
Definition lifetime (expiresIn : string) : option Z :=
  match multipliers (Js.slice_last expiresIn),
        Js.parseInt (Js.slice_init expiresIn) with
  | Some m, Some v => Some (v * m / 1000)
  | _, _ => None
  end.

Definition encode (secret : string) (p : jwt_payload) (exp : Z) : string :=
  put secret
    match p with
    | access_payload a =>
        put "access" (put (access_user_id a) (exp_to_string exp))
    | refresh_payload r =>
        put "refresh"
          (put (refresh_user_id r)
             (put (refresh_family_id r)
                (put (device_name (refresh_device_type r)) (exp_to_string exp))))
    end.

Definition decode_claims (t : string) : option (jwt_payload * Z) :=
  match get t with
  | Some (ty, t1) =>
      if String.eqb ty "access" then
        match get t1 with
        | Some (uid, t2) =>
            match exp_of_string t2 with
            | Some exp => Some (access_payload {| access_user_id := uid |}, exp)
            | None => None
            end
        | None => None
        end
      else if String.eqb ty "refresh" then
        match get t1 with
        | Some (uid, t2) =>
            match get t2 with
            | Some (fid, t3) =>
                match get t3 with
                | Some (dn, t4) =>
                    match device_of_name dn, exp_of_string t4 with
                    | Some d, Some exp =>
                        Some (refresh_payload {| refresh_user_id := uid;
                                                 refresh_family_id := fid;
                                                 refresh_device_type := d |}, exp)
                    | _, _ => None
                    end
                | None => None
                end
            | None => None
            end
        | None => None
        end
      else None
  | None => None
  end.

Definition sign (p : jwt_payload) (secret expiresIn : string) (now : Z) : result string :=
  match lifetime expiresIn with
  | Some ttl => ret (encode secret p (now / 1000 + ttl))
  | None => throw (Error "expiresIn should be a number of seconds or a timespan")
  end.

Definition verify (token secret : string) (now : Z) : result jwt_payload :=
  match get token with
  | Some (k, claims) =>
      if String.eqb k secret then
        match decode_claims claims with
        | Some (p, exp) =>
            if exp <=? now / 1000 then throw (TokenExpiredError "jwt expired")
            else ret p
        | None => throw (JsonWebTokenError "jwt malformed")
        end
      else throw (JsonWebTokenError "invalid signature")
  | None => throw (JsonWebTokenError "jwt malformed")
  end.

Definition lib : JsonWebToken := Build_JsonWebToken sign verify.

(** The digest: the token read backwards. *)
Fixpoint rev_onto (s acc : string) : string :=
  match s with
  | EmptyString => acc
  | String c s' => rev_onto s' (String c acc)
  end.

Definition digest (s : string) : string := rev_onto s EmptyString.

End SimpleJwt.

(** ** Vocabulary of the statements *)

(** A filter that does not read [is_revoked]. *)
Definition flag_blind (filter : RefreshTokenType -> bool) : Prop :=
  forall r, filter (set_revoked r) = filter r.

Section Vocabulary.

Variable jwt : JsonWebToken.
Variable sha256_hex : string -> string.
Variable env : Environment.

(** The family a new pair belongs to: the one passed in, or a fresh one. *)
Definition family_of (fid : option string) (uuid : string) : string :=
  match fid with
  | Some f => if Js.truthy f then f else uuid
  | None => uuid
  end.

(** The lifetime setting of the refresh token of a device. *)
Definition expiry_of (dev : e_device_type) : string :=
  if e_device_type_eqb dev mobile
  then JWT_REFRESH_EXPIRY_MOBILE env
  else JWT_REFRESH_EXPIRY_WEB env.

(** The record [findOne({ token_hash })] returns for [token]. *)
Definition lookup_token (token : string) (c : RefreshToken.collection)
  : option RefreshTokenType :=
  RefreshToken.findOne (RefreshToken.by_token_hash (hash_token sha256_hex token)) c.

(** The record of [token] is missing or revoked: the condition of step 3. *)
Definition reused (token : string) (c : RefreshToken.collection) : Prop :=
  match lookup_token token c with
  | None => True
  | Some stored => is_revoked stored = true
  end.

(** Presenting [token] again and again: each attempt brings the value of
    [uuidv4()] and the time of the call. *)
Fixpoint replay (token : string) (attempts : list (string * Z))
    (c : RefreshToken.collection)
  : list (result ITokenRotationResult) * RefreshToken.collection :=
  match attempts with
  | [] => ([], c)
  | (uuid, now) :: rest =>
      let '(r, c1) := rotate_refresh_token jwt sha256_hex env token uuid now c in
      let '(rs, c2) := replay token rest c1 in
      (r :: rs, c2)
  end.

(** The five ways a rotation can end. *)
Inductive rotation_case (token uuid : string) (now : Z) (c : RefreshToken.collection)
  : ITokenRotationResult -> RefreshToken.collection -> Prop :=
| rc_rejected e :
    verify_refresh_token jwt env token now = inl e ->
    rotation_case token uuid now c (rotate_catch e) c
| rc_reused decoded :
    verify_refresh_token jwt env token now = inr decoded ->
    reused token c ->
    rotation_case token uuid now c reuse_detected
      (RefreshToken.updateMany (RefreshToken.by_family_id (refresh_family_id decoded)) c)
| rc_expired decoded stored :
    verify_refresh_token jwt env token now = inr decoded ->
    lookup_token token c = Some stored ->
    is_revoked stored = false ->
    expires_at stored < now ->
    rotation_case token uuid now c (rotation_failure "Refresh token expired")
      (RefreshToken.updateOne (RefreshToken.by_token_hash (hash_token sha256_hex token)) c)
| rc_issue_failed decoded stored e c' :
    verify_refresh_token jwt env token now = inr decoded ->
    lookup_token token c = Some stored ->
    is_revoked stored = false ->
    now <= expires_at stored ->
    generate_token_pair jwt sha256_hex env (refresh_user_id decoded) (refresh_device_type decoded)
      (Some (refresh_family_id decoded)) uuid now
      (RefreshToken.updateOne (RefreshToken.by_token_hash (hash_token sha256_hex token)) c)
    = (inl e, c') ->
    rotation_case token uuid now c (rotation_failure "Failed to refresh token")
      (RefreshToken.updateOne (RefreshToken.by_token_hash (hash_token sha256_hex token)) c)
| rc_rotated decoded stored new_tokens c' :
    verify_refresh_token jwt env token now = inr decoded ->
    lookup_token token c = Some stored ->
    is_revoked stored = false ->
    now <= expires_at stored ->
    generate_token_pair jwt sha256_hex env (refresh_user_id decoded) (refresh_device_type decoded)
      (Some (refresh_family_id decoded)) uuid now
      (RefreshToken.updateOne (RefreshToken.by_token_hash (hash_token sha256_hex token)) c)
    = (inr new_tokens, c') ->
    rotation_case token uuid now c (rotation_success new_tokens) c'.

End Vocabulary.

(** ** Sample data *)

(** A login at time 1000 ms on an empty collection, under the defaults. *)
Definition sample_login : result ITokenPair * RefreshToken.collection :=
  generate_token_pair SimpleJwt.lib SimpleJwt.digest default_env
    "user-1" web None "family-1" 1000 [].

Definition sample_store : RefreshToken.collection :=
  Eval vm_compute in snd sample_login.

Definition sample_refresh : string :=
  Eval vm_compute in
    match fst sample_login with
    | inr p => refresh_token p
    | inl _ => ""
    end.

Definition sample_access : string :=
  Eval vm_compute in
    match fst sample_login with
    | inr p => access_token p
    | inl _ => ""
    end.

(** ** Further vocabulary *)

(** [jwt.verify] rejects [token] as expired at time [now]. *)
Definition expired_at (jwt : JsonWebToken) (token secret : string) (now : Z) : Prop :=
  exists m, verify jwt token secret now = inl (TokenExpiredError m).

(** What the service relies on in [jsonwebtoken]: a token signed under a
    secret verifies under that secret to the payload that was signed,
    unless it is reported expired. *)
Definition jwt_faithful (jwt : JsonWebToken) : Prop :=
  forall p secret expiresIn now token now',
    sign jwt p secret expiresIn now = inr token ->
    verify jwt token secret now' = inr p \/ expired_at jwt token secret now'.

(** The calls that write to the collection. *)
Inductive operation : Type :=
| Login (uid : string) (dev : e_device_type) (uuid : string) (now : Z)
| Refresh (token uuid : string) (now : Z)
| Logout (token : string)
| RevokeAllUserTokens (uid : string)
| RevokeTokenFamily (fid : string)
| StaticRevokeFamily (fid : string)
| StaticRevokeUserTokens (uid : string).

Section Operations.

Variable jwt : JsonWebToken.
Variable sha256_hex : string -> string.
Variable env : Environment.

(** The collection after one call: [Login] is [generate_token_pair] for a
    new family, [Refresh] is [rotate_refresh_token], [Logout] is
    [revoke_refresh_token]. *)
Definition apply_operation (op : operation) (c : RefreshToken.collection)
  : RefreshToken.collection :=
  match op with
  | Login uid dev uuid now =>
      snd (generate_token_pair jwt sha256_hex env uid dev None uuid now c)
  | Refresh token uuid now =>
      snd (rotate_refresh_token jwt sha256_hex env token uuid now c)
  | Logout token => snd (revoke_refresh_token sha256_hex token c)
  | RevokeAllUserTokens uid => snd (revoke_all_user_tokens uid c)
  | RevokeTokenFamily fid => snd (revoke_token_family fid c)
  | StaticRevokeFamily fid => RefreshToken.revoke_family fid c
  | StaticRevokeUserTokens uid => RefreshToken.revoke_user_tokens uid c
  end.

Definition apply_operations (ops : list operation) (c : RefreshToken.collection)
  : RefreshToken.collection :=
  fold_left (fun acc op => apply_operation op acc) ops c.

End Operations.

(** Every record that was in [c] is at its place in [c'], as it was or with
    [is_revoked] set. *)
Definition only_revokes (c c' : RefreshToken.collection) : Prop :=
  forall (i : nat) rec,
    c !! i = Some rec ->
    exists rec', c' !! i = Some rec' /\ (rec' = rec \/ rec' = set_revoked rec).

(** The sample token presented at time 5000 ms. *)
Definition sample_rotation : result ITokenRotationResult * RefreshToken.collection :=
  Eval vm_compute in
    rotate_refresh_token SimpleJwt.lib SimpleJwt.digest default_env
      sample_refresh "unused" 5000 sample_store.

Definition sample_rotated_store : RefreshToken.collection :=
  Eval vm_compute in snd sample_rotation.

Definition sample_next_pair : ITokenPair :=
  Eval vm_compute in
    match fst sample_rotation with
    | inr {| tokens := Some p |} => p
    | _ => {| access_token := ""; refresh_token := "";
              access_expires_in := ""; refresh_expires_in := "" |}
    end.

(** A collection in which the record of the sample token ran out at
    2000 ms although its JWT is still good. *)
Definition sample_stale_store : RefreshToken.collection :=
  [ mk_refresh_token "user-2" "other-hash" "family-1" mobile 9000000 500 false;
    mk_refresh_token "user-1" (SimpleJwt.digest sample_refresh) "family-1" web 2000 1000 false;
    mk_refresh_token "user-1" "sibling-hash" "family-1" web 9000000 1500 false ].

(** ** Schedules of the coordinator *)

(** The event is not a rejected wait. *)
Definition no_timeout (ev : event) : Prop :=
  match ev with
  | Timeout _ _ => False
  | _ => True
  end.

(** The tokens the schedule submits. *)
Definition submitted (evs : list event) : list string :=
  flat_map (fun ev => match ev with
                      | Submit _ token _ => [token]
                      | _ => []
                      end) evs.

(** No two of the tokens are given the same job id. *)
Definition no_collision (sha256_hex : string -> string) (tokens : list string) : Prop :=
  forall t1 t2,
    In t1 tokens -> In t2 tokens ->
    create_job_id sha256_hex t1 = create_job_id sha256_hex t2 -> t1 = t2.

(** The tokens of the calls of [rotate_refresh_token] made so far, those
    in progress and those that have returned. *)
Definition calls (st : Coordinator) : list string :=
  (List.map rotation_token (running st) ++ List.map fst (rotations st))%list.

(** The values the calls on [token] have returned. *)
Definition results_of (token : string) (log : list (string * ITokenRotationResult))
  : list ITokenRotationResult :=
  List.map snd (List.filter (fun x => String.eqb (fst x) token) log).

(** What holds of the coordinator while its queue is in place, no wait is
    rejected and the tokens submitted, all among [tokens], have job ids of
    their own.  Every job and every waiter is filed under the job id of
    its token.  The calls in progress are the worker's, one per token, on
    jobs that have not returned.  A call that has returned is logged once,
    and its value is the return value of the job of its token.  A job has
    returned only what is logged for its token, and a caller was answered
    only with what is logged for its token. *)
Definition deduplicated (sha256_hex : string -> string) (tokens : list string)
    (st : Coordinator) : Prop :=
  exists q,
    queue st = Some q
    /\ (forall jid job, q !! jid = Some job ->
          In (job_data job) tokens /\ jid = create_job_id sha256_hex (job_data job))
    /\ (forall w, In w (waiting st) ->
          In (waiter_token w) tokens
          /\ waiter_job w = create_job_id sha256_hex (waiter_token w)
          /\ exists job, q !! waiter_job w = Some job)
    /\ (forall th, In th (running st) ->
          rotation_owner th = worker (create_job_id sha256_hex (rotation_token th))
          /\ q !! create_job_id sha256_hex (rotation_token th)
             = Some {| job_data := rotation_token th; returnvalue := None |})
    /\ NoDup (List.map rotation_token (running st))
    /\ (forall t r, In (t, r) (rotations st) ->
          q !! create_job_id sha256_hex t
          = Some {| job_data := t; returnvalue := Some r |})
    /\ NoDup (List.map fst (rotations st))
    /\ (forall jid job r, q !! jid = Some job -> returnvalue job = Some r ->
          In (job_data job, r) (rotations st))
    /\ (forall i t r, In (i, t, r) (returned st) -> In (t, r) (rotations st)).

(** [n] callers submit the same token at time [now]; every wait
    resolves. *)
Definition submit_all (n : nat) (token : string) (now : Z) : list event :=
  List.map (fun i => Submit i token now) (seq 0 n).

Definition settle_all (n : nat) (now : Z) : list event :=
  List.map (fun i => Settle i now) (seq 0 n).

(** The worker takes the job of id [job_id] and runs it in [k] stretches
    without a pause. *)
Definition work (job_id uuid : string) (now : Z) (k : nat) : list event :=
  Take job_id now :: repeat (Resume (worker job_id) uuid now) k.

(** Caller [i]'s own call of [rotate_refresh_token], run in [k] stretches
    without a pause. *)
Definition rotate_alone (i : nat) (uuid : string) (now : Z) (k : nat) : list event :=
  repeat (Resume (caller i) uuid now) k.

(** Callers [i] and [j] call [add_refresh_job] with the same token while
    the queue is absent, and their calls of [rotate_refresh_token] advance
    in turns: both look the token up, both consume it, both issue. *)
Definition overlapped (i j : nat) (token uuid : string) (now : Z) : list event :=
  [ Submit i token now; Submit j token now;
    Resume (caller i) uuid now; Resume (caller j) uuid now;
    Resume (caller i) uuid now; Resume (caller j) uuid now;
    Resume (caller i) uuid now; Resume (caller j) uuid now ].

(** The waiter caller [i] becomes when it submits [token] at [now]. *)
Definition waiter_of (sha256_hex : string -> string) (token : string) (now : Z)
    (i : nat) : Waiter :=
  {| waiter_id := i;
     waiter_job := create_job_id sha256_hex token;
     waiter_token := token;
     waiter_since := now |}.

(** The job id of the sample token, and the coordinator once caller 0 has
    submitted it at 5000 ms and waits. *)
Definition sample_job : string := create_job_id SimpleJwt.digest sample_refresh.

Definition sample_waiting : Coordinator :=
  {| store := sample_store;
     queue := Some (queue_add sample_job sample_refresh ∅);
     waiting := [waiter_of SimpleJwt.digest sample_refresh 5000 0];
     running := [];
     rotations := [];
     returned := [];
     clock := 5000 |}.

(** Callers 0 and 2 submit the sample token and caller 1 a string that is
    no token; the worker takes both jobs and runs them in turns; every
    wait resolves. *)
Definition sample_schedule : list event :=
  [ Submit 0 sample_refresh 5000;
    Submit 1 "not-a-token" 5000;
    Submit 2 sample_refresh 5001;
    Take sample_job 5002;
    Resume (worker sample_job) "unused" 5003;
    Take (create_job_id SimpleJwt.digest "not-a-token") 5003;
    Resume (worker (create_job_id SimpleJwt.digest "not-a-token")) "unused" 5004;
    Resume (worker sample_job) "unused" 5005;
    Resume (worker sample_job) "unused" 5006;
    Settle 1 5007;
    Settle 0 5008;
    Settle 2 5008 ].

(** ** The rest of the middleware: [optional_authenticate], [require_role] *)

Section AuthMiddlewareRest.

Variable jwt : JsonWebToken.
Variable env : Environment.
Variable Profile : Type.
Variable findById : string -> result (option IUser).
Variable get_player_profile_by_user_id : string -> result (option Profile).

(** [optional_authenticate]: the extraction and verification of
    [authenticate_token]; the middleware always calls [next()], and the
    value is [req.user] at that point ([None] when it was not set). *)
Definition optional_authenticate (req : Request) (now : Z)
  : option (RequestUser Profile) :=
  match fst (extract_token req) with
  | Some token =>
      if negb (Js.truthy token) then None
      else
        match verify_access_token jwt env token now with
        | inl _ => None
        | inr decoded_token =>
            match findById (access_user_id decoded_token) with
            | inl _ => None
            | inr None => None
            | inr (Some u) =>
                match get_player_profile_by_user_id (user_oid u) with
                | inl _ => None
                | inr profile =>
                    Some {| id := user_oid u;
                            user_email :=
                              if Js.truthy (email u) then Some (email u) else None;
                            user_roles := roles u;
                            player_profile := profile |}
                end
            end
        end
  | None => None
  end.

Definition not_authenticated : Response :=
  {| status := 401;
     body_error := "No autenticado";
     body_message := "Debes estar autenticado para acceder a este recurso" |}.

Definition access_denied : Response :=
  {| status := 403;
     body_error := "Acceso denegado";
     body_message := "No tienes permisos para acceder a este recurso" |}.

(** [roles.some((role) => req.user.roles.includes(role))] *)
Definition has_role (allowed : list string) (u : RequestUser Profile) : bool :=
  existsb (fun role => existsb (String.eqb role) (user_roles u)) allowed.

(** [require_role(roles)] applied to [req.user]. *)
Definition require_role (allowed : list string) (user : option (RequestUser Profile))
  : outcome Profile :=
  match user with
  | None => Respond not_authenticated
  | Some u =>
      if negb (has_role allowed u) then Respond access_denied else Next u
  end.

End AuthMiddlewareRest.

(** ** The Firebase revision of the middleware:
       [src/middleware/auth.middleware.ts] with [FirebaseService] *)

(** [s.split(" ")[1]]: the text between the first and the second space;
    [None] ([undefined]) when [s] has no space. *)
Module JsSplit.

Fixpoint until_space (s : string) : string * option string :=
  match s with
  | EmptyString => (EmptyString, None)
  | String c s' =>
      if Ascii.eqb c " " then (EmptyString, Some s')
      else let '(word, rest) := until_space s' in (String c word, rest)
  end.

Definition second_word (s : string) : option string :=
  match snd (until_space s) with
  | Some rest => Some (fst (until_space rest))
  | None => None
  end.

End JsSplit.

Module FirebaseGate.

Section Gate.

(** [this.app] is set; [admin.auth().verifyIdToken(id_token, true)], which
    returns the [uid] or throws; [User.findOne] by provider subject;
    [get_player_profile_by_user_id]. *)
Variable app_initialized : bool.
Variable verifyIdToken : string -> result string.
Variable Profile : Type.
Variable findOne_by_sub : string -> result (option IUser).
Variable get_player_profile_by_user_id : string -> result (option Profile).

(** [FirebaseService.verify_id_token] *)
Definition verify_id_token (id_token : string) : result string :=
  try_catch
    (if negb app_initialized
     then throw (Error "Firebase no está inicializado")
     else verifyIdToken id_token)
    (fun _ => throw (Error "Token inválido o expirado")).

Definition token_required : Response :=
  {| status := 401;
     body_error := "Token de acceso requerido";
     body_message := "Debes incluir un token de autorización" |}.

Definition user_not_found : Response :=
  {| status := 401;
     body_error := "Usuario no encontrado";
     body_message := "El usuario no existe en nuestra base de datos" |}.

Definition token_invalid : Response :=
  {| status := 401;
     body_error := "Token inválido";
     body_message := "El token de acceso no es válido o ha expirado" |}.

Definition internal_error : Response :=
  {| status := 500;
     body_error := "Error de autenticación";
     body_message := "Error interno del servidor" |}.

(** [auth_header && auth_header.split(' ')[1]] *)
Definition bearer_token (req : Request) : option string :=
  match authorization req with
  | Some auth_header =>
      if Js.truthy auth_header then JsSplit.second_word auth_header else None
  | None => None
  end.

Definition authenticate_try (req : Request) : result (outcome Profile) :=
  match bearer_token req with
  | Some token =>
      if negb (Js.truthy token) then ret (Respond token_required)
      else
        let* uid := verify_id_token token in
        let* user := findOne_by_sub uid in
        match user with
        | None => ret (Respond user_not_found)
        | Some u =>
            let* profile := get_player_profile_by_user_id (user_oid u) in
            ret (Next {| id := user_oid u;
                         user_email := if Js.truthy (email u) then Some (email u) else None;
                         user_roles := roles u;
                         player_profile := profile |})
        end
  | None => ret (Respond token_required)
  end.

Definition authenticate_catch (error : exn) : Response :=
  if instanceof_Error error && Js.includes (message_of error) "Token inválido"
  then token_invalid
  else internal_error.

(** [authenticate_token] *)
Definition authenticate_token (req : Request) : outcome Profile :=
  match authenticate_try req with
  | inr o => o
  | inl error => Respond (authenticate_catch error)
  end.

End Gate.

End FirebaseGate.

(** ** The controller: [AuthController.refresh], [logout] and their helpers *)

(** What a handler does to the two authentication cookies. *)
Inductive cookie_effect : Type :=
| NoCookies
| SetAuthCookies (access refresh : string) (access_max_age : Z)
    (refresh_max_age : option Z)
| ClearAuthCookies.

(** [res.status(..).json({ success, error, message, should_logout, data })]
    with the cookies written on the way. *)
Record ControllerResponse : Type := {
  http_status : Z;
  json_success : bool;
  json_error : option string;
  json_message : string;
  json_should_logout : option bool;
  json_tokens : option ITokenPair;
  cookies_written : cookie_effect
}.

(** [parse_expiry_to_ms]: [value * (multipliers[unit] || 1000)]; [None] is
    [NaN]. *)
Definition parse_expiry_to_ms (expiry : string) : option Z :=
  let unit := Js.slice_last expiry in
  let value := Js.parseInt (Js.slice_init expiry) in
  (fun v => v * default 1000 (multipliers unit)) <$> value.

(** [set_auth_cookies] *)
Definition set_auth_cookies (access refresh refresh_expires : string) : cookie_effect :=
  SetAuthCookies access refresh (15 * 60 * 1000) (parse_expiry_to_ms refresh_expires).

(** The extraction shared by [refresh] and [logout]: the [refresh_token]
    cookie, else the second word of the [Authorization] header. *)
Definition extract_refresh_token (req : Request) : option string * option token_source :=
  if truthy_opt (cookie "refresh_token" req)
  then (cookie "refresh_token" req, Some from_cookie)
  else
    match authorization req with
    | Some auth_header =>
        if Js.truthy auth_header
        then (JsSplit.second_word auth_header, Some from_header)
        else (None, None)
    | None => (None, None)
    end.

Definition is_cookie (source : option token_source) : bool :=
  match source with Some from_cookie => true | _ => false end.

Definition is_header (source : option token_source) : bool :=
  match source with Some from_header => true | _ => false end.

Section AuthController.

(** [refresh_queue_service.add_refresh_job] as the controller sees it, and
    the digest used by [jwt_service]. *)
Variable add_refresh_job : string -> io ITokenRotationResult.
Variable sha256_hex : string -> string.

Definition refresh_token_required : ControllerResponse :=
  {| http_status := 401; json_success := false;
     json_error := Some "Refresh token requerido";
     json_message := "No se proporcionó un refresh token";
     json_should_logout := None; json_tokens := None;
     cookies_written := NoCookies |}.

Definition refresh_internal_error : ControllerResponse :=
  {| http_status := 500; json_success := false;
     json_error := Some "Error interno";
     json_message := "Error refrescando los tokens";
     json_should_logout := None; json_tokens := None;
     cookies_written := NoCookies |}.

(** The answer of [refresh] once [add_refresh_job] has returned. *)
Definition refresh_respond (source : option token_source)
    (result : ITokenRotationResult) : ControllerResponse :=
  if negb (success result) then
    {| http_status := 401; json_success := false;
       json_error := Some "Token refresh failed";
       json_message :=
         match error result with
         | Some msg => if Js.truthy msg then msg else "No se pudo refrescar el token"
         | None => "No se pudo refrescar el token"
         end;
       json_should_logout := should_logout result;
       json_tokens := None;
       cookies_written :=
         if default false (should_logout result) && is_cookie source
         then ClearAuthCookies else NoCookies |}
  else
    match tokens result with
    | None =>
        {| http_status := 500; json_success := false;
           json_error := Some "Error interno";
           json_message := "No se pudieron generar nuevos tokens";
           json_should_logout := None; json_tokens := None;
           cookies_written := NoCookies |}
    | Some new_pair =>
        {| http_status := 200; json_success := true;
           json_error := None;
           json_message := "Tokens refrescados exitosamente";
           json_should_logout := None;
           json_tokens := if is_header source then Some new_pair else None;
           cookies_written :=
             if is_cookie source
             then set_auth_cookies (access_token new_pair) (refresh_token new_pair)
                    (refresh_expires_in new_pair)
             else NoCookies |}
    end.

(** [AuthController.refresh] *)
Definition refresh (req : Request) : io ControllerResponse :=
  io_try
    (let '(token, source) := extract_refresh_token req in
     if negb (truthy_opt token) then io_ret refresh_token_required
     else
       await result <- add_refresh_job (default "" token);
       io_ret (refresh_respond source result))
    (fun _ => io_ret refresh_internal_error).

(** [AuthController.logout] *)
Definition logout (req : Request) : io ControllerResponse :=
  io_try
    (let '(token, source) := extract_refresh_token req in
     await _ <-
       (if truthy_opt token
        then await _ <- revoke_refresh_token sha256_hex (default "" token);
             io_ret tt
        else io_ret tt);
     io_ret {| http_status := 200; json_success := true;
               json_error := None;
               json_message := "Sesión cerrada exitosamente";
               json_should_logout := None; json_tokens := None;
               cookies_written :=
                 if is_cookie source then ClearAuthCookies else NoCookies |})
    (fun _ => io_ret {| http_status := 200; json_success := true;
                        json_error := None;
                        json_message := "Sesión cerrada (con errores internos)";
                        json_should_logout := None; json_tokens := None;
                        cookies_written := ClearAuthCookies |}).

End AuthController.

(** ** More vocabulary *)

(** A record the rotation would still accept at time [now]. *)
Definition live_at (now : Z) (r : RefreshTokenType) : Prop :=
  is_revoked r = false /\ now <= expires_at r.

(** ** More sample data *)

(** The pair of the sample login. *)
Definition sample_pair : ITokenPair :=
  {| access_token := sample_access; refresh_token := sample_refresh;
     access_expires_in := "15m"; refresh_expires_in := "7d" |}.

(** The record of the sample login. *)
Definition sample_record : RefreshTokenType :=
  mk_refresh_token "user-1" (SimpleJwt.digest sample_refresh) "family-1" web
    604801000 1000 false.

(** A deployment that signs both kinds of token with one secret. *)
Definition shared_secret_env : Environment := {|
  JWT_SECRET := "one-secret-of-at-least-32-characters-for-both";
  JWT_REFRESH_SECRET := "one-secret-of-at-least-32-characters-for-both";
  JWT_ACCESS_EXPIRY := "15m";
  JWT_REFRESH_EXPIRY_WEB := "7d";
  JWT_REFRESH_EXPIRY_MOBILE := "90d"
|}.

Definition shared_secret_login : result ITokenPair * RefreshToken.collection :=
  generate_token_pair SimpleJwt.lib SimpleJwt.digest shared_secret_env
    "user-1" web None "family-1" 1000 [].

Definition shared_secret_pair : ITokenPair :=
  Eval vm_compute in
    match fst shared_secret_login with
    | inr p => p
    | inl _ => {| access_token := ""; refresh_token := "";
                  access_expires_in := ""; refresh_expires_in := "" |}
    end.

(** A deployment whose web lifetime is written in weeks, a unit
    [calculate_expiry] does not know. *)
Definition weekly_env : Environment := {|
  JWT_SECRET := JWT_SECRET default_env;
  JWT_REFRESH_SECRET := JWT_REFRESH_SECRET default_env;
  JWT_ACCESS_EXPIRY := "15m";
  JWT_REFRESH_EXPIRY_WEB := "1w";
  JWT_REFRESH_EXPIRY_MOBILE := "90d"
|}.

(** The user of the sample login, as a document of the users collection. *)
Definition sample_user : IUser :=
  {| user_oid := "user-1"; email := "ana@example.com"; roles := ["player"] |}.

(** A request that carries [token] in its [Authorization] header and no
    cookies. *)
Definition bearer (token : string) : Request :=
  {| cookies := None; authorization := Some ("Bearer " ++ token) |}.

(** The job the controller hands the coordinator, run at 5000 ms. *)
Definition sample_add_refresh_job (token : string) : io ITokenRotationResult :=
  rotate_refresh_token SimpleJwt.lib SimpleJwt.digest default_env token "unused" 5000.

(** * Properties *)

(** ** JavaScript strings *)

Example includes_is_case_sensitive :
  Js.includes "Refresh token expired" "expired" = true
  /\ Js.includes "Invalid refresh token" "invalid" = false
  /\ Js.includes "Invalid token type" "invalid" = false.
Proof. repeat split; reflexivity. Qed.

Example parseInt_examples :
  Js.parseInt "15" = Some 15 /\ Js.parseInt "" = None
  /\ Js.parseInt " -7x" = Some (-7) /\ Js.parseInt "x7" = None.
Proof. repeat split; reflexivity. Qed.

Example slice_examples :
  Js.slice_last "15m" = "m" /\ Js.slice_init "15m" = "15"
  /\ Js.slice_last "" = "" /\ Js.substring_from 7 "Bearer abc" = "abc".
Proof. repeat split; reflexivity. Qed.

(** ** The collection *)

Lemma set_revoked_idem r : set_revoked (set_revoked r) = set_revoked r.
Proof. reflexivity. Qed.

Lemma set_revoked_id r : is_revoked r = true -> set_revoked r = r.
Proof. destruct r as [u h f d e c b]; simpl; intros ->; reflexivity. Qed.

Lemma findOne_Some filter c r :
  RefreshToken.findOne filter c = Some r -> filter r = true /\ In r c.
Proof.
  induction c as [|x c IH]; simpl; [discriminate|].
  destruct (filter x) eqn:Hx.
  - intros [= <-]. auto.
  - intros H. destruct (IH H). auto.
Qed.

Lemma findOne_None filter c :
  RefreshToken.findOne filter c = None <-> (forall r, In r c -> filter r = false).
Proof.
  induction c as [|x c IH]; simpl.
  - split; [intros _ r []|reflexivity].
  - destruct (filter x) eqn:Hx.
    + split; [discriminate|]. intros H. rewrite (H x) in Hx by auto. discriminate.
    + rewrite IH. split.
      * intros H r [<-|Hr]; auto.
      * intros H r Hr. apply H. auto.
Qed.

Lemma findOne_app filter c1 c2 :
  RefreshToken.findOne filter (c1 ++ c2)%list =
  match RefreshToken.findOne filter c1 with
  | Some r => Some r
  | None => RefreshToken.findOne filter c2
  end.
Proof.
  induction c1 as [|x c1 IH]; simpl; [reflexivity|].
  destruct (filter x); [reflexivity|apply IH].
Qed.

Lemma by_token_hash_blind h : flag_blind (RefreshToken.by_token_hash h).
Proof. intros r. reflexivity. Qed.

Lemma by_family_id_blind f : flag_blind (RefreshToken.by_family_id f).
Proof. intros r. reflexivity. Qed.

Lemma findOne_updateOne filter c :
  flag_blind filter ->
  RefreshToken.findOne filter (RefreshToken.updateOne filter c) =
  set_revoked <$> RefreshToken.findOne filter c.
Proof.
  intros Hb. induction c as [|x c IH]; simpl; [reflexivity|].
  destruct (filter x) eqn:Hx; simpl.
  - rewrite Hb, Hx. reflexivity.
  - rewrite Hx. apply IH.
Qed.

Lemma findOne_updateMany filter g c :
  flag_blind filter ->
  RefreshToken.findOne filter (RefreshToken.updateMany g c) =
  (fun r => if g r then set_revoked r else r) <$> RefreshToken.findOne filter c.
Proof.
  intros Hb. unfold RefreshToken.updateMany.
  induction c as [|x c IH]; simpl; [reflexivity|].
  assert (Hf : filter (if g x then set_revoked x else x) = filter x)
    by (destruct (g x); [apply Hb|reflexivity]).
  rewrite Hf. destruct (filter x); [reflexivity|apply IH].
Qed.

(** [updateOne] rewrites exactly one position, the one [findOne] returns. *)
Lemma updateOne_insert filter c r :
  RefreshToken.findOne filter c = Some r ->
  exists i : nat, c !! i = Some r
    /\ RefreshToken.updateOne filter c = <[i := set_revoked r]> c
    /\ (forall j r', (j < i)%nat -> c !! j = Some r' -> filter r' = false).
Proof.
  induction c as [|x c IH]; simpl; [discriminate|].
  destruct (filter x) eqn:Hx.
  - intros [= <-]. exists 0%nat.
    split; [reflexivity|]. split; [reflexivity|]. intros j r' Hj; lia.
  - intros H. destruct (IH H) as (i & Hi & Hu & Hlt).
    exists (S i).
    split; [exact Hi|]. split; [simpl; rewrite Hu; reflexivity|].
    intros [|j] r' Hj; simpl.
    + intros [= <-]. exact Hx.
    + apply Hlt. lia.
Qed.

Lemma updateOne_none filter c :
  RefreshToken.findOne filter c = None -> RefreshToken.updateOne filter c = c.
Proof.
  induction c as [|x c IH]; simpl; [reflexivity|].
  destruct (filter x); [discriminate|]. intros H. rewrite IH by exact H. reflexivity.
Qed.

Lemma updateMany_lookup g (c : RefreshToken.collection) (i : nat) :
  RefreshToken.updateMany g c !! i =
  (fun r => if g r then set_revoked r else r) <$> (c !! i).
Proof. unfold RefreshToken.updateMany. apply list_lookup_fmap. Qed.

Lemma updateMany_length g c :
  length (RefreshToken.updateMany g c) = length c.
Proof. unfold RefreshToken.updateMany. apply length_map. Qed.

Lemma updateOne_length filter c :
  length (RefreshToken.updateOne filter c) = length c.
Proof.
  induction c as [|x c IH]; simpl; [reflexivity|].
  destruct (filter x); simpl; [reflexivity|]. rewrite IH. reflexivity.
Qed.

(** ** The Token Issuer *)

Section IssuerFacts.

Variable jwt : JsonWebToken.
Variable sha256_hex : string -> string.
Variable env : Environment.

Local Abbreviation generate := (generate_token_pair jwt sha256_hex env).
Local Abbreviation hash := (hash_token sha256_hex).
Local Abbreviation expiry_of := (expiry_of env).

(** A failed issue leaves the collection as it was and throws the generic
    error. *)
Lemma generate_throws uid dev fid uuid now c e c' :
  generate uid dev fid uuid now c = (inl e, c') ->
  e = Error "Failed to generate authentication tokens" /\ c' = c.
Proof.
  unfold generate_token_pair, io_try, io_bind, io_lift, io_write_res, io_ret, io_throw.
  destruct (sign jwt _ (JWT_SECRET env) _ now) as [e1|a]; [intros [= <- <-]; auto|].
  destruct (sign jwt _ (JWT_REFRESH_SECRET env) _ now) as [e2|r]; [intros [= <- <-]; auto|].
  destruct (calculate_expiry _ now) as [e3|x]; [intros [= <- <-]; auto|].
  destruct (RefreshToken.create _ _ _ _ _ _ c) as [e4|c'']; [intros [= <- <-]; auto|].
  discriminate.
Qed.

(** A successful issue signs both tokens and appends one fresh, unrevoked
    record for the refresh token. *)
Lemma generate_returns uid dev fid uuid now c pair c' :
  generate uid dev fid uuid now c = (inr pair, c') ->
  sign jwt (access_payload {| access_user_id := uid |})
       (JWT_SECRET env) (JWT_ACCESS_EXPIRY env) now = inr (access_token pair)
  /\ sign jwt (refresh_payload {| refresh_user_id := uid;
                                  refresh_family_id := family_of fid uuid;
                                  refresh_device_type := dev |})
          (JWT_REFRESH_SECRET env) (expiry_of dev) now = inr (refresh_token pair)
  /\ access_expires_in pair = JWT_ACCESS_EXPIRY env
  /\ refresh_expires_in pair = expiry_of dev
  /\ RefreshToken.findOne (RefreshToken.by_token_hash (hash (refresh_token pair))) c = None
  /\ exists e, calculate_expiry (expiry_of dev) now = inr (Some e)
       /\ c' = (c ++ [mk_refresh_token uid (hash (refresh_token pair))
                        (family_of fid uuid) dev e now false])%list.
Proof.
  unfold generate_token_pair, io_try, io_bind, io_lift, io_write_res, io_ret, io_throw.
  fold (family_of fid uuid). fold (expiry_of dev).
  destruct (sign jwt _ (JWT_SECRET env) _ now) as [e1|a]; [discriminate|].
  destruct (sign jwt _ (JWT_REFRESH_SECRET env) _ now) as [e2|r]; [discriminate|].
  destruct (calculate_expiry _ now) as [e3|x]; [discriminate|].
  unfold RefreshToken.create.
  destruct x as [e|]; [|discriminate].
  destruct (negb _); [discriminate|].
  destruct (existsb _ c) eqn:Hex; [discriminate|].
  intros [= <- <-]; simpl.
  repeat (split; [reflexivity|]).
  split; [|exists e; split; reflexivity].
  apply findOne_None. intros r0 Hr0.
  destruct (RefreshToken.by_token_hash (hash r) r0) eqn:Hh; [|reflexivity].
  assert (existsb (fun r1 => String.eqb (token_hash r1) (hash r)) c = true).
  { apply existsb_exists. exists r0. auto. }
  congruence.
Qed.

End IssuerFacts.

(** ** The Rotation Protocol *)

Section RotationFacts.

Variable jwt : JsonWebToken.
Variable sha256_hex : string -> string.
Variable env : Environment.

Local Abbreviation rotate := (rotate_refresh_token jwt sha256_hex env).
Local Abbreviation generate := (generate_token_pair jwt sha256_hex env).
Local Abbreviation verify_refresh := (verify_refresh_token jwt env).
Local Abbreviation lookup := (lookup_token sha256_hex).
Local Abbreviation is_reused := (reused sha256_hex).
Local Abbreviation expiry_of := (expiry_of env).
Local Abbreviation rotation_case := (rotation_case jwt sha256_hex env).

(** Step 1 failing: the [catch] block answers, nothing is read or written. *)
Lemma rotate_rejected token uuid now c e :
  verify_refresh token now = inl e ->
  rotate token uuid now c = (inr (rotate_catch e), c).
Proof.
  intros H. unfold rotate_refresh_token, rotate_try, io_try, io_bind, io_lift.
  rewrite H. reflexivity.
Qed.

(** Step 3. *)
Lemma rotate_reused token uuid now c decoded :
  verify_refresh token now = inr decoded ->
  is_reused token c ->
  rotate token uuid now c =
  (inr reuse_detected,
   RefreshToken.updateMany (RefreshToken.by_family_id (refresh_family_id decoded)) c).
Proof.
  intros H Hre. unfold reused, lookup_token in Hre.
  unfold rotate_refresh_token, rotate_try, io_try, io_bind, io_lift, io_read, io_write, io_ret.
  rewrite H.
  destruct (RefreshToken.findOne _ c) as [stored|]; [|reflexivity].
  rewrite Hre. reflexivity.
Qed.

(** Step 4. *)
Lemma rotate_expired_record token uuid now c decoded stored :
  verify_refresh token now = inr decoded ->
  lookup token c = Some stored ->
  is_revoked stored = false ->
  expires_at stored < now ->
  rotate token uuid now c =
  (inr (rotation_failure "Refresh token expired"),
   RefreshToken.updateOne (RefreshToken.by_token_hash (hash_token sha256_hex token)) c).
Proof.
  intros H Hst Hrev Hexp. unfold lookup_token in Hst.
  unfold rotate_refresh_token, rotate_try, io_try, io_bind, io_lift, io_read, io_write, io_ret.
  rewrite H, Hst, Hrev.
  apply Z.ltb_lt in Hexp. rewrite Hexp. reflexivity.
Qed.

(** Steps 5 and 6. *)
Lemma rotate_consumes token uuid now c decoded stored :
  verify_refresh token now = inr decoded ->
  lookup token c = Some stored ->
  is_revoked stored = false ->
  now <= expires_at stored ->
  rotate token uuid now c =
  match generate (refresh_user_id decoded) (refresh_device_type decoded)
          (Some (refresh_family_id decoded)) uuid now
          (RefreshToken.updateOne
             (RefreshToken.by_token_hash (hash_token sha256_hex token)) c) with
  | (inr new_tokens, c') => (inr (rotation_success new_tokens), c')
  | (inl e, c') => (inr (rotate_catch e), c')
  end.
Proof.
  intros H Hst Hrev Hexp. unfold lookup_token in Hst.
  unfold rotate_refresh_token, rotate_try, io_try, io_bind, io_lift, io_read, io_write, io_ret.
  rewrite H, Hst, Hrev.
  apply Z.ltb_ge in Hexp. rewrite Hexp.
  destruct (generate _ _ _ _ _ _) as [[e|p] c']; reflexivity.
Qed.

Lemma rotate_catch_failure e :
  success (rotate_catch e) = false
  /\ should_logout (rotate_catch e) = Some false
  /\ exists msg, error (rotate_catch e) = Some msg /\ msg <> "".
Proof.
  unfold rotate_catch.
  destruct (instanceof_Error e && _) eqn:Hc; simpl.
  - repeat split. exists (message_of e). split; [reflexivity|].
    intros Hm. rewrite Hm in Hc. rewrite andb_comm in Hc. discriminate.
  - repeat split. eexists. split; [reflexivity|discriminate].
Qed.

(** [rotate_refresh_token] always returns, in one of the five ways. *)
Lemma rotate_cases token uuid now c :
  exists r c', rotate token uuid now c = (inr r, c')
               /\ rotation_case token uuid now c r c'.
Proof.
  destruct (verify_refresh token now) as [e|decoded] eqn:Hv.
  { eexists _, _. split; [apply rotate_rejected; exact Hv|]. constructor. exact Hv. }
  destruct (lookup token c) as [stored|] eqn:Hst.
  2:{ eexists _, _. split.
      - eapply rotate_reused; [exact Hv|]. unfold reused. fold lookup. rewrite Hst. exact I.
      - eapply rc_reused; [exact Hv|]. unfold reused. fold lookup. rewrite Hst. exact I. }
  destruct (is_revoked stored) eqn:Hrev.
  { eexists _, _. split.
    - eapply rotate_reused; [exact Hv|]. unfold reused. fold lookup. rewrite Hst. exact Hrev.
    - eapply rc_reused; [exact Hv|]. unfold reused. fold lookup. rewrite Hst. exact Hrev. }
  destruct (Z.lt_ge_cases (expires_at stored) now) as [Hexp|Hexp].
  { eexists _, _. split.
    - eapply rotate_expired_record; eassumption.
    - eapply rc_expired; eassumption. }
  pose proof (rotate_consumes token uuid now c decoded stored Hv Hst Hrev Hexp) as Hr.
  destruct (generate _ _ _ _ _ _) as [[e|p] c'] eqn:Hg.
  - destruct (generate_throws _ _ _ _ _ _ _ _ _ _ _ Hg) as [-> ->].
    eexists _, _. split; [exact Hr|]. eapply rc_issue_failed; eassumption.
  - eexists _, _. split; [exact Hr|]. eapply rc_rotated; eassumption.
Qed.

End RotationFacts.

Section RotationClaims.

Variable jwt : JsonWebToken.
Variable sha256_hex : string -> string.
Variable env : Environment.

Local Abbreviation rotate := (rotate_refresh_token jwt sha256_hex env).
Local Abbreviation verify_refresh := (verify_refresh_token jwt env).
Local Abbreviation lookup := (lookup_token sha256_hex).
Local Abbreviation is_reused := (reused sha256_hex).

Lemma reused_updateMany token g c :
  is_reused token c -> is_reused token (RefreshToken.updateMany g c).
Proof.
  unfold reused, lookup_token. rewrite findOne_updateMany by apply by_token_hash_blind.
  destruct (RefreshToken.findOne _ c) as [stored|]; simpl; [|auto].
  intros H. destruct (g stored); [reflexivity|exact H].
Qed.

(** A token whose record is revoked or missing is never rotated: the call
    ends in the reuse branch, or in the rejection of step 1. *)
Lemma rotate_of_reused token uuid now c :
  is_reused token c ->
  exists r c', rotate token uuid now c = (inr r, c')
    /\ success r = false
    /\ is_reused token c'
    /\ match verify_refresh token now with
       | inr _ => r = reuse_detected
       | inl e => r = rotate_catch e /\ c' = c
       end.
Proof.
  intros Hre. destruct (verify_refresh token now) as [e|decoded] eqn:Hv.
  - eexists _, _. split; [apply rotate_rejected; exact Hv|].
    split; [apply rotate_catch_failure|]. auto.
  - eexists _, _. split; [eapply rotate_reused; eassumption|].
    split; [reflexivity|]. split; [apply reused_updateMany; exact Hre|reflexivity].
Qed.

(** After a successful rotation the presented token is consumed. *)
Lemma rotated_is_reused token uuid now c r c' :
  rotate token uuid now c = (inr r, c') -> success r = true -> is_reused token c'.
Proof.
  intros Hrot Hs.
  destruct (rotate_cases jwt sha256_hex env token uuid now c) as (r0 & c0 & Heq & Hcase).
  rewrite Hrot in Heq. injection Heq as <- <-.
  destruct Hcase as [e Hv|d Hv Hre|d st Hv Hst Hrev Hexp|d st e cf Hv Hst Hrev Hexp Hfail
                    |d st p c1 Hv Hst Hrev Hexp Hgen].
  - destruct (rotate_catch_failure e) as [Hf _]. congruence.
  - discriminate.
  - discriminate.
  - discriminate.
  - apply generate_returns in Hgen.
    destruct Hgen as (_ & _ & _ & _ & _ & e & _ & ->).
    unfold reused, lookup_token. rewrite findOne_app.
    rewrite findOne_updateOne by apply by_token_hash_blind.
    unfold lookup_token in Hst. rewrite Hst. reflexivity.
Qed.

(** C1 (as amended): once [rotate_refresh_token] has succeeded on a token,
    every later presentation of that token fails: with the reuse-detection
    result whenever the token still passes verification, and otherwise with
    the failure of the verification step.  For an expired JWT that is
    "Refresh token expired" without forced logout, and the collection is
    left as it was. *)
Theorem rotate_succeeds_at_most_once token uuid now c r c' :
  rotate token uuid now c = (inr r, c') ->
  success r = true ->
  (forall attempts,
     Forall2 (fun (attempt : string * Z) res =>
                match verify_refresh token (snd attempt) with
                | inr _ => res = inr reuse_detected
                | inl e => res = inr (rotate_catch e)
                end)
             attempts (fst (replay jwt sha256_hex env token attempts c')))
  /\ (forall uuid2 now2 c2 m,
        verify jwt token (JWT_REFRESH_SECRET env) now2 = inl (TokenExpiredError m) ->
        rotate token uuid2 now2 c2
        = (inr {| success := false; tokens := None;
                  error := Some "Refresh token expired";
                  should_logout := Some false |}, c2)).
Proof.
  intros Hrot Hs. split.
  2:{ intros uuid2 now2 c2 m Hexp.
      assert (Hv : verify_refresh token now2 = inl (Error "Refresh token expired"))
        by (unfold verify_refresh_token, try_catch, bind; rewrite Hexp; reflexivity).
      rewrite (rotate_rejected jwt sha256_hex env token uuid2 now2 c2 _ Hv). reflexivity. }
  intros attempts.
  pose proof (rotated_is_reused _ _ _ _ _ _ Hrot Hs) as Hre.
  clear Hrot Hs. revert c' Hre.
  induction attempts as [|[u n] rest IH]; intros c' Hre; simpl.
  - constructor.
  - destruct (rotate_of_reused token u n c' Hre) as (r1 & c1 & Heq & _ & Hre1 & Hres).
    rewrite Heq.
    specialize (IH c1 Hre1).
    destruct (replay jwt sha256_hex env token rest c1) as [rs c2]. simpl in *.
    constructor; [|exact IH].
    revert Hres. cbn [snd].
    destruct (verify_refresh token n); [intros [-> _]|intros ->]; reflexivity.
Qed.

(** C2: a verified token whose record is missing or already revoked makes
    the call revoke every record of the token's family, leave the other
    records alone, and return the reuse-detection failure with
    [should_logout = true]; a sibling token of the family cannot be redeemed
    afterwards. *)
Theorem rotate_reuse_revokes_family token uuid now c decoded :
  verify_refresh token now = inr decoded ->
  (lookup token c = None
   \/ exists stored, lookup token c = Some stored /\ is_revoked stored = true) ->
  exists r c',
    rotate token uuid now c = (inr r, c')
    /\ success r = false
    /\ should_logout r = Some true
    /\ r = reuse_detected
    /\ (forall (i : nat) rec, c !! i = Some rec ->
          c' !! i = Some (if String.eqb (family_id rec) (refresh_family_id decoded)
                          then set_revoked rec else rec))
    /\ length c' = length c
    /\ (forall rec, In rec c' -> family_id rec = refresh_family_id decoded ->
          is_revoked rec = true)
    /\ (forall sibling uuid2 now2 rec,
          lookup sibling c = Some rec ->
          family_id rec = refresh_family_id decoded ->
          exists r2 c2, rotate sibling uuid2 now2 c' = (inr r2, c2)
                        /\ success r2 = false).
Proof.
  intros Hv Hcond.
  assert (Hre : is_reused token c).
  { unfold reused. destruct Hcond as [->|(st & -> & Hr)]; [exact I|exact Hr]. }
  eexists _, _. split; [eapply rotate_reused; eassumption|].
  repeat (split; [reflexivity|]).
  split; [|split; [apply updateMany_length|split]].
  - intros i rec Hi. rewrite updateMany_lookup, Hi. reflexivity.
  - intros rec Hin Hfam. unfold RefreshToken.updateMany in Hin.
    apply in_map_iff in Hin. destruct Hin as (x & Hx & _).
    destruct (RefreshToken.by_family_id _ x) eqn:Hb; subst rec; [reflexivity|].
    unfold RefreshToken.by_family_id in Hb. rewrite Hfam, String.eqb_refl in Hb.
    discriminate.
  - intros sibling uuid2 now2 rec Hst Hfam.
    assert (Hre2 : is_reused sibling
              (RefreshToken.updateMany
                 (RefreshToken.by_family_id (refresh_family_id decoded)) c)).
    { unfold reused, lookup_token. rewrite findOne_updateMany by apply by_token_hash_blind.
      unfold lookup_token in Hst. rewrite Hst. simpl.
      unfold RefreshToken.by_family_id. rewrite Hfam, String.eqb_refl. reflexivity. }
    destruct (rotate_of_reused sibling uuid2 now2 _ Hre2) as (r2 & c2 & Heq & Hs & _).
    eauto.
Qed.

(** C5: a verified token whose record is present, unrevoked and past its
    [expires_at] makes the call revoke that one record, leave every other
    position of the collection as it was, and return "Refresh token
    expired" with [should_logout = false]. *)
Theorem rotate_expired_revokes_one token uuid now c decoded stored :
  verify_refresh token now = inr decoded ->
  lookup token c = Some stored ->
  is_revoked stored = false ->
  expires_at stored < now ->
  exists i : nat,
    c !! i = Some stored
    /\ rotate token uuid now c =
       (inr {| success := false; tokens := None;
               error := Some "Refresh token expired";
               should_logout := Some false |},
        <[i := set_revoked stored]> c)
    /\ (forall j : nat, j <> i ->
          (<[i := set_revoked stored]> c) !! j = c !! j)
    /\ (forall (j : nat) sibling,
          j <> i -> c !! j = Some sibling -> family_id sibling = family_id stored ->
          (<[i := set_revoked stored]> c) !! j = Some sibling).
Proof.
  intros Hv Hst Hrev Hexp.
  destruct (updateOne_insert _ _ _ Hst) as (i & Hi & Hu & _).
  exists i. split; [exact Hi|]. split.
  - rewrite <- Hu. eapply rotate_expired_record; eassumption.
  - split.
    + intros j Hj. apply list_lookup_insert_ne. congruence.
    + intros j sibling Hj Hs _. rewrite <- Hs.
      apply list_lookup_insert_ne. congruence.
Qed.

(** C10: [rotate_refresh_token] returns a result on every input and never
    throws; a failure carries a non-empty message and a boolean
    [should_logout], and [should_logout] is [true] only in the reuse branch
    (verified token, record missing or revoked).  Whatever the [try] block
    throws, the [catch] block turns it into such a failure. *)
Theorem rotate_total token uuid now c :
  exists r c',
    rotate token uuid now c = (inr r, c')
    /\ (success r = false ->
          (exists msg, error r = Some msg /\ msg <> "")
          /\ (exists b, should_logout r = Some b))
    /\ (should_logout r = Some true ->
          success r = false
          /\ exists decoded, verify_refresh token now = inr decoded
             /\ (lookup token c = None
                 \/ exists stored, lookup token c = Some stored
                                   /\ is_revoked stored = true))
    /\ (forall thrown,
          success (rotate_catch thrown) = false
          /\ should_logout (rotate_catch thrown) = Some false
          /\ exists msg, error (rotate_catch thrown) = Some msg /\ msg <> "").
Proof.
  destruct (rotate_cases jwt sha256_hex env token uuid now c) as (r & c' & Heq & Hcase).
  exists r, c'. split; [exact Heq|].
  split; [|split; [|apply rotate_catch_failure]].
  - intros Hs.
    destruct Hcase as [e Hv|d Hv Hre|d st Hv Hst Hrev Hexp|d st e cf Hv Hst Hrev Hexp Hfail
                      |d st p c1 Hv Hst Hrev Hexp Hgen].
    + destruct (rotate_catch_failure e) as (_ & Hl & Hm). eauto.
    + split; eexists; [split; [reflexivity|discriminate]|reflexivity].
    + split; eexists; [split; [reflexivity|discriminate]|reflexivity].
    + split; eexists; [split; [reflexivity|discriminate]|reflexivity].
    + discriminate.
  - intros Hl.
    destruct Hcase as [e Hv|d Hv Hre|d st Hv Hst Hrev Hexp|d st e cf Hv Hst Hrev Hexp Hfail
                      |d st p c1 Hv Hst Hrev Hexp Hgen].
    + destruct (rotate_catch_failure e) as (_ & Hl' & _). congruence.
    + split; [reflexivity|]. exists d. split; [exact Hv|].
      unfold reused in Hre. destruct (lookup token c) as [st|]; eauto.
    + discriminate.
    + discriminate.
    + discriminate.
Qed.

End RotationClaims.

(** *** The claims on the sample data *)

(** The sample token, rotated at 5 s, is presented three more times: twice
    while its JWT is good, once after it has run out. *)
Lemma rotate_succeeds_at_most_once_witness :
  Forall2 (fun (attempt : string * Z) res =>
             match verify_refresh_token SimpleJwt.lib default_env sample_refresh
                     (snd attempt) with
             | inr _ => res = inr reuse_detected
             | inl e => res = inr (rotate_catch e)
             end)
    [("a", 6000); ("b", 7000); ("c", 700000000)]
    (fst (replay SimpleJwt.lib SimpleJwt.digest default_env sample_refresh
            [("a", 6000); ("b", 7000); ("c", 700000000)] sample_rotated_store))
  /\ rotate_refresh_token SimpleJwt.lib SimpleJwt.digest default_env
       sample_refresh "c" 700000000 sample_rotated_store
     = (inr {| success := false; tokens := None;
               error := Some "Refresh token expired";
               should_logout := Some false |}, sample_rotated_store).
Proof.
  destruct (rotate_succeeds_at_most_once SimpleJwt.lib SimpleJwt.digest default_env
              sample_refresh "unused" 5000 sample_store
              (rotation_success sample_next_pair) sample_rotated_store)
    as [Hreplay Hexpired].
  - vm_compute. reflexivity.
  - reflexivity.
  - split; [apply Hreplay|].
    apply (Hexpired "c" 700000000 sample_rotated_store "jwt expired").
    vm_compute. reflexivity.
Defined.

(** C1 as stated fails: the sample token is rotated at 5000 ms; presented
    again once its JWT has run out (700000 s, lifetime seven days), the call
    answers "Refresh token expired" without forced logout, not the
    reuse-detection failure. *)
Lemma replay_after_jwt_expiry_is_expiry_error :
  rotate_refresh_token SimpleJwt.lib SimpleJwt.digest default_env
    sample_refresh "unused" 5000 sample_store
  = (inr (rotation_success sample_next_pair), sample_rotated_store)
  /\ rotate_refresh_token SimpleJwt.lib SimpleJwt.digest default_env
       sample_refresh "unused" 700000000 sample_rotated_store
     = (inr (rotation_failure "Refresh token expired"), sample_rotated_store)
  /\ rotation_failure "Refresh token expired" <> reuse_detected.
Proof.
  split; [vm_compute; reflexivity|].
  split; [vm_compute; reflexivity|discriminate].
Qed.

(** The sample token is presented again after its rotation: the family is
    revoked, and the pair the rotation had issued is dead too. *)
Lemma rotate_reuse_revokes_family_witness :
  exists r c',
    rotate_refresh_token SimpleJwt.lib SimpleJwt.digest default_env
      sample_refresh "unused" 6000 sample_rotated_store = (inr r, c')
    /\ should_logout r = Some true
    /\ (forall rec, In rec c' -> family_id rec = "family-1" -> is_revoked rec = true)
    /\ exists r2 c2,
         rotate_refresh_token SimpleJwt.lib SimpleJwt.digest default_env
           (refresh_token sample_next_pair) "unused" 7000 c' = (inr r2, c2)
         /\ success r2 = false.
Proof.
  destruct (rotate_reuse_revokes_family SimpleJwt.lib SimpleJwt.digest default_env
              sample_refresh "unused" 6000 sample_rotated_store
              {| refresh_user_id := "user-1"; refresh_family_id := "family-1";
                 refresh_device_type := web |})
    as (r & c' & Hrot & _ & Hlogout & _ & _ & _ & Hfam & Hsib).
  - vm_compute. reflexivity.
  - right. eexists. split; vm_compute; reflexivity.
  - exists r, c'. split; [exact Hrot|]. split; [exact Hlogout|]. split; [exact Hfam|].
    eapply (Hsib (refresh_token sample_next_pair) "unused" 7000).
    + vm_compute. reflexivity.
    + reflexivity.
Defined.

(** The sample token against a collection in which its record has run
    out: the record in the middle is revoked, its neighbours are not. *)
Lemma rotate_expired_revokes_one_witness :
  exists i : nat,
    sample_stale_store !! i =
      Some (mk_refresh_token "user-1" (SimpleJwt.digest sample_refresh)
              "family-1" web 2000 1000 false)
    /\ rotate_refresh_token SimpleJwt.lib SimpleJwt.digest default_env
         sample_refresh "unused" 5000 sample_stale_store
       = (inr {| success := false; tokens := None;
                 error := Some "Refresh token expired";
                 should_logout := Some false |},
          <[i := mk_refresh_token "user-1" (SimpleJwt.digest sample_refresh)
                   "family-1" web 2000 1000 true]> sample_stale_store).
Proof.
  destruct (rotate_expired_revokes_one SimpleJwt.lib SimpleJwt.digest default_env
              sample_refresh "unused" 5000 sample_stale_store
              {| refresh_user_id := "user-1"; refresh_family_id := "family-1";
                 refresh_device_type := web |}
              (mk_refresh_token "user-1" (SimpleJwt.digest sample_refresh)
                 "family-1" web 2000 1000 false))
    as (i & Hi & Hrot & _).
  - vm_compute. reflexivity.
  - vm_compute. reflexivity.
  - reflexivity.
  - simpl. lia.
  - exists i. split; [exact Hi|exact Hrot].
Defined.

(** ** Rejections of step 1 *)

Section Rejections.

Variable jwt : JsonWebToken.
Variable sha256_hex : string -> string.
Variable env : Environment.

Local Abbreviation rotate := (rotate_refresh_token jwt sha256_hex env).
Local Abbreviation verify_refresh := (verify_refresh_token jwt env).

(** C6 (what the code does): when step 1 fails nothing is read or written,
    but only the expiry failure keeps its message.  A bad signature and a
    wrong [type] claim are thrown as "Invalid refresh token" and "Invalid
    token type"; the [catch] block looks for a lower-case "invalid", finds
    none, and answers with the generic "Failed to refresh token". *)
Theorem rotate_rejections token uuid now c :
  (forall m, verify jwt token (JWT_REFRESH_SECRET env) now = inl (TokenExpiredError m) ->
     verify_refresh token now = inl (Error "Refresh token expired")
     /\ rotate token uuid now c = (inr (rotation_failure "Refresh token expired"), c))
  /\ (forall m, verify jwt token (JWT_REFRESH_SECRET env) now = inl (JsonWebTokenError m) ->
        verify_refresh token now = inl (Error "Invalid refresh token")
        /\ rotate token uuid now c = (inr (rotation_failure "Failed to refresh token"), c))
  /\ (forall a, verify jwt token (JWT_REFRESH_SECRET env) now = inr (access_payload a) ->
        verify_refresh token now = inl (Error "Invalid token type")
        /\ rotate token uuid now c = (inr (rotation_failure "Failed to refresh token"), c)).
Proof.
  assert (Hrej : forall e, verify_refresh token now = inl e ->
                           rotate token uuid now c = (inr (rotate_catch e), c))
    by (intros e; apply rotate_rejected).
  split; [|split].
  - intros m H.
    assert (Hv : verify_refresh token now = inl (Error "Refresh token expired"))
      by (unfold verify_refresh_token, try_catch, bind; rewrite H; reflexivity).
    split; [exact Hv|]. rewrite (Hrej _ Hv). reflexivity.
  - intros m H.
    assert (Hv : verify_refresh token now = inl (Error "Invalid refresh token"))
      by (unfold verify_refresh_token, try_catch, bind; rewrite H; reflexivity).
    split; [exact Hv|]. rewrite (Hrej _ Hv). reflexivity.
  - intros a H.
    assert (Hv : verify_refresh token now = inl (Error "Invalid token type"))
      by (unfold verify_refresh_token, try_catch, bind; rewrite H; reflexivity).
    split; [exact Hv|]. rewrite (Hrej _ Hv). reflexivity.
Qed.

End Rejections.

(** A string that is no token at all, presented to the sample collection. *)
Example rotate_garbage :
  verify_refresh_token SimpleJwt.lib default_env "not-a-token" 5000
  = inl (Error "Invalid refresh token")
  /\ rotate_refresh_token SimpleJwt.lib SimpleJwt.digest default_env
       "not-a-token" "unused" 5000 sample_store
     = (inr (rotation_failure "Failed to refresh token"), sample_store).
Proof. split; vm_compute; reflexivity. Qed.

(** ** The sample implementation is faithful *)

Lemma get_put s rest : SimpleJwt.get (SimpleJwt.put s rest) = Some (s, rest).
Proof.
  induction s as [|ch s IH]; simpl; [reflexivity|].
  rewrite IH. reflexivity.
Qed.

Lemma exp_of_string_to_string exp :
  SimpleJwt.exp_of_string (SimpleJwt.exp_to_string exp) = Some exp.
Proof.
  unfold SimpleJwt.exp_of_string, SimpleJwt.exp_to_string.
  rewrite NilEmpty.isi. simpl. f_equal. apply DecimalZ.of_to.
Qed.

Lemma device_of_name_name d : SimpleJwt.device_of_name (SimpleJwt.device_name d) = Some d.
Proof. destruct d; reflexivity. Qed.

Lemma decode_access uid exp :
  SimpleJwt.decode_claims
    (SimpleJwt.put "access" (SimpleJwt.put uid (SimpleJwt.exp_to_string exp)))
  = Some (access_payload {| access_user_id := uid |}, exp).
Proof.
  unfold SimpleJwt.decode_claims. rewrite get_put. cbv beta match.
  rewrite String.eqb_refl, get_put. cbv beta match.
  rewrite exp_of_string_to_string. reflexivity.
Qed.

Lemma decode_refresh uid fid dev exp :
  SimpleJwt.decode_claims
    (SimpleJwt.put "refresh"
       (SimpleJwt.put uid
          (SimpleJwt.put fid
             (SimpleJwt.put (SimpleJwt.device_name dev) (SimpleJwt.exp_to_string exp)))))
  = Some (refresh_payload {| refresh_user_id := uid; refresh_family_id := fid;
                             refresh_device_type := dev |}, exp).
Proof.
  unfold SimpleJwt.decode_claims. rewrite get_put. cbv beta match.
  change (String.eqb "refresh" "access") with false. cbv beta match.
  rewrite String.eqb_refl, !get_put. cbv beta match.
  rewrite device_of_name_name, exp_of_string_to_string. reflexivity.
Qed.

Lemma verify_encode secret p exp now :
  SimpleJwt.verify (SimpleJwt.encode secret p exp) secret now =
  if exp <=? now / 1000 then inl (TokenExpiredError "jwt expired") else inr p.
Proof.
  unfold SimpleJwt.verify, SimpleJwt.encode. rewrite get_put, String.eqb_refl.
  destruct p as [[uid]|[uid fid dev]]; cbv beta match.
  - cbn [access_user_id]. rewrite decode_access. reflexivity.
  - cbn [refresh_user_id refresh_family_id refresh_device_type].
    rewrite decode_refresh. reflexivity.
Qed.

Lemma simple_jwt_faithful : jwt_faithful SimpleJwt.lib.
Proof.
  intros p secret expiresIn now token now'. simpl.
  unfold SimpleJwt.sign. destruct (SimpleJwt.lifetime expiresIn) as [ttl|]; [|discriminate].
  intros [= <-]. unfold expired_at. simpl. rewrite verify_encode.
  destruct (_ <=? _); [right; eexists; reflexivity|left; reflexivity].
Qed.

(** ** Issue and verification round trip *)

Section RoundTrip.

Variable jwt : JsonWebToken.
Variable sha256_hex : string -> string.
Variable env : Environment.

Local Abbreviation generate := (generate_token_pair jwt sha256_hex env).

Lemma verify_access_of_decoded token now p :
  verify jwt token (JWT_SECRET env) now = inr (access_payload p) ->
  verify_access_token jwt env token now = inr p.
Proof.
  intros H. unfold verify_access_token, try_catch, bind. rewrite H. reflexivity.
Qed.

Lemma verify_refresh_of_decoded token now p :
  verify jwt token (JWT_REFRESH_SECRET env) now = inr (refresh_payload p) ->
  verify_refresh_token jwt env token now = inr p.
Proof.
  intros H. unfold verify_refresh_token, try_catch, bind. rewrite H. reflexivity.
Qed.

(** C7: the pair [generate_token_pair] returns verifies back to what was
    asked for.  While the access token is not reported expired,
    [verify_access_token] returns the same [user_id], the decoded claim
    [type] being "access"; while the refresh token is not reported expired,
    [verify_refresh_token] returns the same [user_id] and [device_type] and
    the family of the pair, the decoded claim [type] being "refresh". *)
Theorem generate_verify_roundtrip uid dev fid uuid now c pair c' :
  jwt_faithful jwt ->
  generate uid dev fid uuid now c = (inr pair, c') ->
  forall now',
    (~ expired_at jwt (access_token pair) (JWT_SECRET env) now' ->
       verify_access_token jwt env (access_token pair) now'
       = inr {| access_user_id := uid |}
       /\ exists decoded,
            verify jwt (access_token pair) (JWT_SECRET env) now' = inr decoded
            /\ payload_type decoded = "access"
            /\ payload_user_id decoded = uid)
    /\ (~ expired_at jwt (refresh_token pair) (JWT_REFRESH_SECRET env) now' ->
          verify_refresh_token jwt env (refresh_token pair) now'
          = inr {| refresh_user_id := uid;
                   refresh_family_id := family_of fid uuid;
                   refresh_device_type := dev |}
          /\ exists decoded,
               verify jwt (refresh_token pair) (JWT_REFRESH_SECRET env) now' = inr decoded
               /\ payload_type decoded = "refresh"
               /\ payload_user_id decoded = uid).
Proof.
  intros Hlib Hgen now'.
  apply generate_returns in Hgen. destruct Hgen as (Ha & Hr & _).
  split; intros Hlive.
  - destruct (Hlib _ _ _ _ _ now' Ha) as [Hv|Hx]; [|contradiction].
    split; [apply verify_access_of_decoded; exact Hv|].
    eexists. split; [exact Hv|]. split; reflexivity.
  - destruct (Hlib _ _ _ _ _ now' Hr) as [Hv|Hx]; [|contradiction].
    split; [apply verify_refresh_of_decoded; exact Hv|].
    eexists. split; [exact Hv|]. split; reflexivity.
Qed.

End RoundTrip.

(** The sample login, verified one second later. *)
Lemma generate_verify_roundtrip_witness :
  verify_access_token SimpleJwt.lib default_env sample_access 2000
  = inr {| access_user_id := "user-1" |}
  /\ verify_refresh_token SimpleJwt.lib default_env sample_refresh 2000
     = inr {| refresh_user_id := "user-1"; refresh_family_id := "family-1";
              refresh_device_type := web |}.
Proof.
  destruct (generate_verify_roundtrip SimpleJwt.lib SimpleJwt.digest default_env
              "user-1" web None "family-1" 1000 []
              {| access_token := sample_access; refresh_token := sample_refresh;
                 access_expires_in := "15m"; refresh_expires_in := "7d" |}
              sample_store simple_jwt_faithful) with (now' := 2000) as [Hacc Href].
  - vm_compute. reflexivity.
  - split.
    + apply Hacc. intros [m Hm]. vm_compute in Hm. discriminate.
    + apply Href. intros [m Hm]. vm_compute in Hm. discriminate.
Defined.

(** ** The Auth Gate *)

Section AuthGateClaims.

Variable jwt : JsonWebToken.
Variable env : Environment.
Variable Profile : Type.
Variable findById : string -> result (option IUser).
Variable get_player_profile_by_user_id : string -> result (option Profile).

Local Abbreviation gate :=
  (authenticate_token jwt env Profile findById get_player_profile_by_user_id).

(** C8: a request whose only credential is an [access_token] cookie holding
    an expired access token, with no [Authorization] header, is answered
    401 with the "Token expirado" body, which is neither the
    missing-token nor the invalid-token answer. *)
Theorem expired_cookie_is_rejected_as_expired req now token :
  cookie "access_token" req = Some token ->
  token <> "" ->
  authorization req = None ->
  expired_at jwt token (JWT_SECRET env) now ->
  gate req now = Respond token_expired
  /\ status token_expired = 401
  /\ body_error token_expired = "Token expirado"
  /\ token_expired <> token_required
  /\ token_expired <> token_invalid.
Proof.
  intros Hcookie Hne _ [m Hexp].
  split; [|repeat split; discriminate].
  unfold authenticate_token, authenticate_try, extract_token, truthy_opt.
  rewrite Hcookie.
  destruct token as [|ch rest]; [congruence|]. cbn [Js.truthy fst negb].
  unfold verify_access_token, try_catch, bind. rewrite Hexp. reflexivity.
Qed.

End AuthGateClaims.

(** The sample access token (fifteen minutes from 1 s) in a cookie, at
    1000 s. *)
Lemma expired_cookie_is_rejected_as_expired_witness :
  authenticate_token SimpleJwt.lib default_env unit
    (fun _ => inr None) (fun _ => inr None)
    {| cookies := Some {[ "access_token" := sample_access ]};
       authorization := None |} 1000000
  = Respond token_expired.
Proof.
  apply (expired_cookie_is_rejected_as_expired SimpleJwt.lib default_env unit
           (fun _ => inr None) (fun _ => inr None)
           {| cookies := Some {[ "access_token" := sample_access ]};
              authorization := None |} 1000000 sample_access).
  - apply lookup_singleton_eq.
  - discriminate.
  - reflexivity.
  - exists "jwt expired". vm_compute. reflexivity.
Defined.

(** ** Records are only ever revoked *)

Lemma only_revokes_refl c : only_revokes c c.
Proof. intros i rec H. exists rec. auto. Qed.

Lemma only_revokes_trans c1 c2 c3 :
  only_revokes c1 c2 -> only_revokes c2 c3 -> only_revokes c1 c3.
Proof.
  intros H12 H23 i rec Hi.
  destruct (H12 i rec Hi) as (r2 & Hi2 & Hr2).
  destruct (H23 i r2 Hi2) as (r3 & Hi3 & Hr3).
  exists r3. split; [exact Hi3|].
  destruct Hr2 as [->| ->], Hr3 as [->| ->]; auto.
Qed.

Lemma only_revokes_updateMany g c : only_revokes c (RefreshToken.updateMany g c).
Proof.
  intros i rec Hi. rewrite updateMany_lookup, Hi. simpl.
  eexists. split; [reflexivity|]. destruct (g rec); auto.
Qed.

Lemma only_revokes_updateOne filter c : only_revokes c (RefreshToken.updateOne filter c).
Proof.
  induction c as [|x c IH]; simpl; [apply only_revokes_refl|].
  destruct (filter x).
  - intros [|i] rec; simpl.
    + intros [= <-]. eexists. split; [reflexivity|auto].
    + intros Hi. exists rec. auto.
  - intros [|i] rec; simpl.
    + intros [= <-]. eexists. split; [reflexivity|auto].
    + apply IH.
Qed.

Lemma only_revokes_app c extra : only_revokes c (c ++ extra)%list.
Proof.
  intros i rec Hi. exists rec. split; [|auto].
  apply lookup_app_l_Some. exact Hi.
Qed.

Section Lifecycle.

Variable jwt : JsonWebToken.
Variable sha256_hex : string -> string.
Variable env : Environment.

Local Abbreviation apply_op := (apply_operation jwt sha256_hex env).
Local Abbreviation apply_ops := (apply_operations jwt sha256_hex env).

Lemma only_revokes_generate uid dev fid uuid now c :
  only_revokes c (snd (generate_token_pair jwt sha256_hex env uid dev fid uuid now c)).
Proof.
  destruct (generate_token_pair _ _ _ _ _ _ _ _ c) as [[e|p] c'] eqn:Hg; simpl.
  - apply generate_throws in Hg. destruct Hg as [_ ->]. apply only_revokes_refl.
  - apply generate_returns in Hg. destruct Hg as (_ & _ & _ & _ & _ & e & _ & ->).
    apply only_revokes_app.
Qed.

Lemma only_revokes_rotate token uuid now c :
  only_revokes c (snd (rotate_refresh_token jwt sha256_hex env token uuid now c)).
Proof.
  destruct (rotate_cases jwt sha256_hex env token uuid now c) as (r & c' & Heq & Hcase).
  rewrite Heq. simpl.
  destruct Hcase as [e Hv|d Hv Hre|d st Hv Hst Hrev Hexp|d st e cf Hv Hst Hrev Hexp Hfail
                    |d st p c1 Hv Hst Hrev Hexp Hgen].
  - apply only_revokes_refl.
  - apply only_revokes_updateMany.
  - apply only_revokes_updateOne.
  - apply only_revokes_updateOne.
  - eapply only_revokes_trans; [apply only_revokes_updateOne|].
    pose proof (only_revokes_generate (refresh_user_id d) (refresh_device_type d)
                  (Some (refresh_family_id d)) uuid now
                  (RefreshToken.updateOne
                     (RefreshToken.by_token_hash (hash_token sha256_hex token)) c)) as H.
    rewrite Hgen in H. exact H.
Qed.

Lemma only_revokes_operation op c : only_revokes c (apply_op op c).
Proof.
  destruct op; simpl.
  - apply only_revokes_generate.
  - apply only_revokes_rotate.
  - apply only_revokes_updateOne.
  - apply only_revokes_updateMany.
  - apply only_revokes_updateMany.
  - apply only_revokes_updateMany.
  - apply only_revokes_updateMany.
Qed.

Lemma only_revokes_operations ops c : only_revokes c (apply_ops ops c).
Proof.
  revert c. induction ops as [|op ops IH]; intros c; simpl.
  - apply only_revokes_refl.
  - eapply only_revokes_trans; [apply only_revokes_operation|apply IH].
Qed.

(** C9: whatever calls are made (logins, rotations, logouts, user-wide and
    family-wide revocations, in any number and order, from any collection),
    a record that exists stays at its place with the same [user_id],
    [token_hash], [family_id], [device_type], [expires_at] and
    [created_at]; its [is_revoked] is unchanged or has gone to [true], and
    never goes back to [false]. *)
Theorem records_are_only_revoked ops c (i : nat) rec :
  c !! i = Some rec ->
  exists rec',
    apply_ops ops c !! i = Some rec'
    /\ (rec' = rec \/ rec' = set_revoked rec)
    /\ user_id rec' = user_id rec
    /\ token_hash rec' = token_hash rec
    /\ family_id rec' = family_id rec
    /\ device_type rec' = device_type rec
    /\ expires_at rec' = expires_at rec
    /\ created_at rec' = created_at rec
    /\ (is_revoked rec = true -> is_revoked rec' = true).
Proof.
  intros Hi.
  destruct (only_revokes_operations ops c i rec Hi) as (rec' & Hi' & Hr).
  exists rec'. split; [exact Hi'|]. split; [exact Hr|].
  destruct Hr as [->| ->]; simpl; repeat split; auto.
Qed.

End Lifecycle.

(** The first record of the sample collection through a rotation, a
    login, a replay, a logout and a user-wide revocation. *)
Lemma records_are_only_revoked_witness :
  exists rec',
    apply_operations SimpleJwt.lib SimpleJwt.digest default_env
      [ Refresh sample_refresh "unused" 5000;
        Login "user-2" mobile "family-2" 5500;
        Refresh sample_refresh "unused" 6000;
        Logout (refresh_token sample_next_pair);
        RevokeAllUserTokens "user-1" ] sample_store !! 0%nat = Some rec'
    /\ token_hash rec' = SimpleJwt.digest sample_refresh
    /\ family_id rec' = "family-1"
    /\ expires_at rec' = 604801000.
Proof.
  destruct (records_are_only_revoked SimpleJwt.lib SimpleJwt.digest default_env
              [ Refresh sample_refresh "unused" 5000;
                Login "user-2" mobile "family-2" 5500;
                Refresh sample_refresh "unused" 6000;
                Logout (refresh_token sample_next_pair);
                RevokeAllUserTokens "user-1" ] sample_store 0%nat
              (mk_refresh_token "user-1" (SimpleJwt.digest sample_refresh)
                 "family-1" web 604801000 1000 false))
    as (rec' & Hi & _ & _ & Hh & Hf & _ & He & _).
  - vm_compute. reflexivity.
  - exists rec'. auto.
Defined.

(** ** The Rotation Protocol between its [await]s *)

Section RotationStepFacts.

Variable jwt : JsonWebToken.
Variable sha256_hex : string -> string.
Variable env : Environment.

Local Abbreviation rotate := (rotate_refresh_token jwt sha256_hex env).

(** A call that nothing interrupts ends after at most three stretches,
    with the value and the collection of [rotate_refresh_token]. *)
Lemma rotation_uninterrupted token uuid now c :
  exists (k : nat) r c1,
    (1 <= k <= 3)%nat
    /\ rotate token uuid now c = (inr r, c1)
    /\ resume_to_end jwt sha256_hex env k token uuid now at_entry c = Some (r, c1).
Proof.
  unfold rotate_refresh_token, rotate_try, io_try, io_bind, io_lift, io_read,
    io_write, io_ret.
  destruct (verify_refresh_token jwt env token now) as [e|decoded] eqn:Hv.
  - exists 1%nat. do 2 eexists. split; [lia|]. split; [reflexivity|].
    repeat (simpl; rewrite ?Hv, ?Hf, ?Hr, ?He, ?Hg). reflexivity.
  - destruct (RefreshToken.findOne
                (RefreshToken.by_token_hash (hash_token sha256_hex token)) c)
      as [stored|] eqn:Hf.
    2:{ exists 2%nat. do 2 eexists. split; [lia|]. split; [reflexivity|].
        repeat (simpl; rewrite ?Hv, ?Hf, ?Hr, ?He, ?Hg). reflexivity. }
    destruct (is_revoked stored) eqn:Hr.
    { exists 2%nat. do 2 eexists. split; [lia|]. split; [reflexivity|].
      repeat (simpl; rewrite ?Hv, ?Hf, ?Hr, ?He, ?Hg). reflexivity. }
    destruct (expires_at stored <? now) eqn:He.
    { exists 2%nat. do 2 eexists. split; [lia|]. split; [reflexivity|].
      repeat (simpl; rewrite ?Hv, ?Hf, ?Hr, ?He, ?Hg). reflexivity. }
    exists 3%nat.
    destruct (generate_token_pair jwt sha256_hex env (refresh_user_id decoded)
                (refresh_device_type decoded) (Some (refresh_family_id decoded))
                uuid now
                (RefreshToken.updateOne
                   (RefreshToken.by_token_hash (hash_token sha256_hex token)) c))
      as [[e|p] c'] eqn:Hg.
    + do 2 eexists. split; [lia|]. split; [reflexivity|].
      repeat (simpl; rewrite ?Hv, ?Hf, ?Hr, ?He, ?Hg). reflexivity.
    + do 2 eexists. split; [lia|]. split; [reflexivity|].
      repeat (simpl; rewrite ?Hv, ?Hf, ?Hr, ?He, ?Hg). reflexivity.
Qed.

End RotationStepFacts.

(** ** The Refresh Coordinator *)

Lemma owner_eqb_eq a b : owner_eqb a b = true <-> a = b.
Proof.
  destruct a as [x|i], b as [y|j]; simpl; split; try discriminate.
  - intros H. apply String.eqb_eq in H. congruence.
  - intros [= ->]. apply String.eqb_refl.
  - intros H. apply Nat.eqb_eq in H. congruence.
  - intros [= ->]. apply Nat.eqb_refl.
Qed.

Lemma owner_eqb_neq a b : owner_eqb a b = false <-> a <> b.
Proof.
  split.
  - intros H Heq. apply owner_eqb_eq in Heq. congruence.
  - intros H. destruct (owner_eqb a b) eqn:E; [|reflexivity].
    apply owner_eqb_eq in E. contradiction.
Qed.

Lemma take_waiter_In i ws w rest :
  take_waiter i ws = Some (w, rest) -> In w ws /\ waiter_id w = i.
Proof.
  revert w rest. induction ws as [|x ws IH]; intros w rest; simpl; [discriminate|].
  destruct (Nat.eqb (waiter_id x) i) eqn:Hx.
  - intros [= <- <-]. split; [auto|]. apply Nat.eqb_eq. exact Hx.
  - destruct (take_waiter i ws) as [[w' rest']|]; [|discriminate].
    intros [= <- <-]. destruct (IH _ _ eq_refl). auto.
Qed.

Lemma take_waiter_sub i ws w rest x :
  take_waiter i ws = Some (w, rest) -> In x rest -> In x ws.
Proof.
  revert w rest. induction ws as [|y ws IH]; intros w rest; simpl; [discriminate|].
  destruct (Nat.eqb (waiter_id y) i).
  - intros [= <- <-]. auto.
  - destruct (take_waiter i ws) as [[w' rest']|]; [|discriminate].
    intros [= <- <-]. intros [->|Hin]; [auto|]. right. eapply IH; eauto.
Qed.

Lemma take_rotation_perm o rs th rest :
  take_rotation o rs = Some (th, rest) ->
  Permutation rs (th :: rest) /\ rotation_owner th = o.
Proof.
  revert th rest. induction rs as [|x rs IH]; intros th rest; simpl; [discriminate|].
  destruct (owner_eqb (rotation_owner x) o) eqn:Hx.
  - intros [= <- <-]. split; [reflexivity|]. apply owner_eqb_eq. exact Hx.
  - destruct (take_rotation o rs) as [[th' rest']|]; [|discriminate].
    intros [= <- <-]. destruct (IH _ _ eq_refl) as [Hp Ho]. split; [|exact Ho].
    rewrite Hp. apply perm_swap.
Qed.

Lemma take_rotation_last o pre th :
  Forall (fun x => rotation_owner x <> o) pre ->
  rotation_owner th = o ->
  take_rotation o (pre ++ [th]) = Some (th, pre).
Proof.
  intros Hpre Ho. induction Hpre as [|x pre Hx _ IH]; simpl.
  - rewrite (proj2 (owner_eqb_eq _ _) Ho). reflexivity.
  - rewrite (proj2 (owner_eqb_neq _ _) Hx), IH. reflexivity.
Qed.

Lemma tick_same st : tick (clock st) st = st.
Proof. destruct st. reflexivity. Qed.

Section CoordinatorFacts.

Variable jwt : JsonWebToken.
Variable sha256_hex : string -> string.
Variable env : Environment.

Local Abbreviation rotate := (rotate_refresh_token jwt sha256_hex env).
Local Abbreviation run := (run jwt sha256_hex env).
Local Abbreviation job_id_of := (create_job_id sha256_hex).
Local Abbreviation deduplicated := (deduplicated sha256_hex).

Lemma run_app evs1 evs2 st :
  run (evs1 ++ evs2)%list st =
  match run evs1 st with
  | Some st1 => run evs2 st1
  | None => None
  end.
Proof.
  revert st. induction evs1 as [|ev evs1 IH]; intros st; simpl; [reflexivity|].
  destruct (step jwt sha256_hex env ev st); [apply IH|reflexivity].
Qed.

Lemma run_cons ev evs st :
  run (ev :: evs) st =
  match step jwt sha256_hex env ev st with
  | Some st' => run evs st'
  | None => None
  end.
Proof. reflexivity. Qed.

(** An event at the time the clock shows. *)
Lemma step_now ev st :
  time_of ev = clock st ->
  step jwt sha256_hex env ev st = fire jwt sha256_hex env ev st.
Proof.
  intros H. unfold step. rewrite H, Z.leb_refl, tick_same. reflexivity.
Qed.

(** [process_refresh_job] is the rotation of the job's token. *)
Lemma process_refresh_job_rotates job uuid now c :
  process_refresh_job jwt sha256_hex env job uuid now c = rotate (job_data job) uuid now c.
Proof.
  unfold process_refresh_job, io_try.
  destruct (rotate_cases jwt sha256_hex env (job_data job) uuid now c)
    as (r & c' & -> & _).
  reflexivity.
Qed.

(** The call of [o], the last one started, run to its end without a
    pause. *)
Lemma run_resumes o token uuid now r c1 : forall (k : nat) p st pre,
  running st = (pre ++ [{| rotation_owner := o; rotation_token := token;
                           rotation_at := p |}])%list ->
  Forall (fun x => rotation_owner x <> o) pre ->
  clock st <= now ->
  resume_to_end jwt sha256_hex env k token uuid now p (store st) = Some (r, c1) ->
  run (repeat (Resume o uuid now) k) st =
  Some (finish o token r
          {| store := c1; queue := queue st; waiting := waiting st;
             running := pre; rotations := rotations st; returned := returned st;
             clock := now |}).
Proof.
  induction k as [|k IH]; intros p st pre Hrun Hpre Hclock Hend; [discriminate|].
  cbn [repeat]. rewrite run_cons. unfold step. cbn [time_of].
  rewrite (proj2 (Z.leb_le _ _) Hclock). cbn [fire tick running store].
  rewrite Hrun.
  rewrite (take_rotation_last o pre
             {| rotation_owner := o; rotation_token := token; rotation_at := p |}
             Hpre eq_refl).
  cbn [rotation_token rotation_at rotation_owner].
  cbn [resume_to_end] in Hend.
  destruct (resume jwt sha256_hex env token uuid now p (store st)) as [[p'|r'] c'].
  - erewrite (IH p'); [reflexivity|reflexivity|exact Hpre|simpl; lia|exact Hend].
  - destruct k; [|discriminate]. injection Hend as <- <-. reflexivity.
Qed.

Lemma queue_add_lookup jid token (q : gmap string Job) j job :
  queue_add jid token q !! j = Some job ->
  q !! j = Some job
  \/ (q !! jid = None /\ j = jid
      /\ job = {| job_data := token; returnvalue := None |}).
Proof.
  unfold queue_add.
  destruct (q !! jid) eqn:Hl; [auto|].
  destruct (decide (jid = j)) as [<-|Hne].
  - rewrite lookup_insert_eq. intros [= <-]. auto.
  - rewrite lookup_insert_ne by exact Hne. auto.
Qed.

Lemma queue_add_mono jid token (q : gmap string Job) j job :
  q !! j = Some job -> queue_add jid token q !! j = Some job.
Proof.
  intros H. unfold queue_add.
  destruct (q !! jid) eqn:Hl; [exact H|].
  rewrite lookup_insert_ne; [exact H|]. intros ->. congruence.
Qed.

Lemma queue_add_has jid token (q : gmap string Job) :
  exists job, queue_add jid token q !! jid = Some job.
Proof.
  unfold queue_add. destruct (q !! jid) as [job|] eqn:Hl.
  - exists job. exact Hl.
  - eexists. apply lookup_insert_eq.
Qed.

Lemma queue_add_present jid token (q : gmap string Job) job :
  q !! jid = Some job -> queue_add jid token q = q.
Proof. intros H. unfold queue_add. rewrite H. reflexivity. Qed.

Lemma NoDup_snoc_In {A : Type} (l : list A) (x : A) :
  NoDup l -> ~ In x l -> NoDup (l ++ [x]).
Proof.
  intros Hl Hx. apply NoDup_app. split; [exact Hl|]. split; [|apply NoDup_singleton].
  intros y Hy Hyx. apply list_elem_of_singleton in Hyx. subst y.
  apply Hx. apply list_elem_of_In. exact Hy.
Qed.

Lemma results_of_absent token log :
  ~ In token (List.map fst log) -> results_of token log = [].
Proof.
  unfold results_of. induction log as [|[a b] log IH]; simpl; [reflexivity|].
  intros H. destruct (String.eqb a token) eqn:E.
  - apply String.eqb_eq in E. exfalso. apply H. auto.
  - apply IH. intros Hin. apply H. auto.
Qed.

Lemma results_of_unique token r log :
  NoDup (List.map fst log) -> In (token, r) log -> results_of token log = [r].
Proof.
  induction log as [|[a b] log IH]; simpl; [intros _ []|].
  intros Hnd Hin. apply NoDup_cons in Hnd. destruct Hnd as [Ha Hnd].
  rewrite list_elem_of_In in Ha.
  unfold results_of. simpl.
  destruct Hin as [[= -> ->]|Hin].
  - rewrite String.eqb_refl. simpl. f_equal. apply results_of_absent. exact Ha.
  - destruct (String.eqb a token) eqn:E.
    + apply String.eqb_eq in E. subst a. exfalso. apply Ha.
      apply in_map_iff. exists (token, r). auto.
    + apply IH; assumption.
Qed.

Section Dedup.

Variable tokens : list string.
Hypothesis Hinj : no_collision sha256_hex tokens.

Lemma deduplicated_initial c now :
  deduplicated tokens (initial true c now).
Proof.
  exists ∅. simpl. split; [reflexivity|].
  split; [intros jid job H; rewrite lookup_empty in H; discriminate|].
  split; [intros w []|]. split; [intros th []|]. split; [constructor|].
  split; [intros t r []|]. split; [constructor|].
  split; [intros jid job r H; rewrite lookup_empty in H; discriminate|].
  intros i t r [].
Qed.

Lemma deduplicated_tick now st :
  deduplicated tokens st -> deduplicated tokens (tick now st).
Proof. intros H. exact H. Qed.

Lemma deduplicated_fire ev st st' :
  deduplicated tokens st ->
  no_timeout ev ->
  (forall t, In t (submitted [ev]) -> In t tokens) ->
  fire jwt sha256_hex env ev st = Some st' ->
  deduplicated tokens st'.
Proof.
  intros (q & Hq & HJ & HW & HR & HU & HF & HN & HC & HA) Hnt Hsub Hfire.
  destruct ev as [i t now|jid now|o uuid now|i now|i now]; simpl in Hnt, Hfire;
    [| | | |contradiction].
  - (* Submit *)
    rewrite Hq in Hfire. injection Hfire as <-.
    assert (Ht : In t tokens) by (apply Hsub; simpl; auto).
    exists (queue_add (job_id_of t) t q). simpl.
    split; [reflexivity|]. split.
    { intros j job H.
      destruct (queue_add_lookup _ _ _ _ _ H) as [H'|(_ & -> & ->)]; [eauto|simpl; auto]. }
    split.
    { intros w Hin. apply in_app_or in Hin. destruct Hin as [Hin|[<-|[]]].
      - destruct (HW _ Hin) as (H1 & H2 & job & H3).
        split; [exact H1|]. split; [exact H2|]. exists job. apply queue_add_mono. exact H3.
      - simpl. split; [exact Ht|]. split; [reflexivity|]. apply queue_add_has. }
    split.
    { intros th Hin. destruct (HR _ Hin) as [H1 H2]. split; [exact H1|].
      apply queue_add_mono. exact H2. }
    split; [exact HU|]. split.
    { intros t' r Hin. apply queue_add_mono. eauto. }
    split; [exact HN|]. split; [|exact HA].
    intros j job r H Hr.
    destruct (queue_add_lookup _ _ _ _ _ H) as [H'|(_ & _ & ->)]; [eauto|discriminate].
  - (* Take *)
    rewrite Hq in Hfire.
    destruct (q !! jid) as [job|] eqn:Hjid; [|discriminate].
    destruct (returnvalue job) as [done|] eqn:Hdone; [discriminate|].
    destruct (existsb _ (running st)) eqn:Hact; [discriminate|].
    match type of Hfire with
    | (if ?b then _ else _) = _ => destruct b; [discriminate|]
    end.
    injection Hfire as <-.
    destruct (HJ _ _ Hjid) as [Htok Hid].
    exists q. unfold start; simpl.
    split; [exact Hq|]. split; [exact HJ|]. split; [exact HW|]. split.
    { intros th Hin. apply in_app_or in Hin. destruct Hin as [Hin|[<-|[]]]; [auto|].
      simpl. split; [congruence|]. rewrite <- Hid, Hjid.
      destruct job; simpl in *; subst; reflexivity. }
    split.
    { rewrite List.map_app. simpl. apply NoDup_snoc_In; [exact HU|].
      intros Hin. apply in_map_iff in Hin. destruct Hin as (th & Hth & Hin).
      destruct (HR _ Hin) as [Ho _].
      assert (Hex : existsb (fun th => owner_eqb (rotation_owner th) (worker jid))
                      (running st) = true).
      { apply existsb_exists. exists th. split; [exact Hin|].
        apply owner_eqb_eq. rewrite Ho, Hth, <- Hid. reflexivity. }
      congruence. }
    split; [exact HF|]. split; [exact HN|]. split; [exact HC|exact HA].
  - (* Resume *)
    destruct (take_rotation o (running st)) as [[th rest]|] eqn:Htake; [|discriminate].
    destruct (take_rotation_perm _ _ _ _ Htake) as [Hperm Ho].
    assert (Hth : In th (running st)).
    { eapply Permutation_in; [symmetry; exact Hperm|left; reflexivity]. }
    assert (Hrest : forall x, In x rest -> In x (running st)).
    { intros x Hx. eapply Permutation_in; [symmetry; exact Hperm|right; exact Hx]. }
    destruct (HR _ Hth) as [Hown Hjob].
    assert (HU' : NoDup (rotation_token th :: List.map rotation_token rest)).
    { rewrite <- (Permutation_map rotation_token Hperm). exact HU. }
    apply NoDup_cons in HU'. destruct HU' as [Hfresh HUrest].
    rewrite list_elem_of_In in Hfresh.
    destruct (resume jwt sha256_hex env (rotation_token th) uuid now (rotation_at th)
                (store st)) as [[p|r] c']; injection Hfire as <-.
    + exists q. simpl.
      split; [exact Hq|]. split; [exact HJ|]. split; [exact HW|]. split.
      { intros x Hin. apply in_app_or in Hin. destruct Hin as [Hin|[<-|[]]]; [auto|].
        simpl. split; assumption. }
      split.
      { rewrite List.map_app. simpl. apply NoDup_snoc_In; assumption. }
      split; [exact HF|]. split; [exact HN|]. split; [exact HC|exact HA].
    + set (t := rotation_token th) in *.
      assert (Ht : In t tokens) by (apply (HJ _ _ Hjob)).
      assert (Hother : forall t', In t' tokens -> t' <> t -> job_id_of t <> job_id_of t').
      { intros t' Ht' Hne Heq. apply Hne. symmetry. apply Hinj; assumption. }
      assert (Hnew : forall r', ~ In (t, r') (rotations st)).
      { intros r' Hin. rewrite (HF _ _ Hin) in Hjob. discriminate. }
      unfold finish. rewrite Hown. simpl. rewrite Hq. simpl.
      eexists. simpl. split; [reflexivity|]. split.
      { intros j job. destruct (decide (job_id_of t = j)) as [<-|Hne].
        - rewrite lookup_insert_eq. intros [= <-]. simpl. auto.
        - rewrite lookup_insert_ne by exact Hne. apply HJ. }
      split.
      { intros w Hin. destruct (HW _ Hin) as (H1 & H2 & job & H3).
        split; [exact H1|]. split; [exact H2|].
        destruct (decide (job_id_of t = waiter_job w)) as [<-|Hne].
        - eexists. apply lookup_insert_eq.
        - exists job. rewrite lookup_insert_ne by exact Hne. exact H3. }
      split.
      { intros x Hin. destruct (HR _ (Hrest _ Hin)) as [H1 H2]. split; [exact H1|].
        rewrite lookup_insert_ne; [exact H2|].
        apply Hother; [apply (HJ _ _ H2)|].
        intros Heq. apply Hfresh. apply in_map_iff. exists x. auto. }
      split; [exact HUrest|]. split.
      { intros t' r' Hin. apply in_app_or in Hin. destruct Hin as [Hin|[[= <- <-]|[]]].
        - rewrite lookup_insert_ne; [apply HF; exact Hin|].
          apply Hother; [apply (HJ _ _ (HF _ _ Hin))|].
          intros ->. exact (Hnew _ Hin).
        - apply lookup_insert_eq. }
      split.
      { rewrite List.map_app. simpl. apply NoDup_snoc_In; [exact HN|].
        intros Hin. apply in_map_iff in Hin. destruct Hin as ([t' r'] & Heq & Hin).
        simpl in Heq. subst t'. exact (Hnew _ Hin). }
      split.
      { intros j job r0. destruct (decide (job_id_of t = j)) as [<-|Hne].
        - rewrite lookup_insert_eq. intros [= <-] [= <-]. simpl.
          apply in_or_app. right. left. reflexivity.
        - rewrite lookup_insert_ne by exact Hne. intros H1 H2.
          apply in_or_app. left. eauto. }
      intros i' t' r' Hin. apply in_or_app. left. eauto.
  - (* Settle *)
    destruct (take_waiter i (waiting st)) as [[w rest]|] eqn:Htake; [|discriminate].
    rewrite Hq in Hfire.
    destruct (q !! waiter_job w) as [job|] eqn:Hjid; [|discriminate].
    destruct (returnvalue job) as [r|] eqn:Hdone; [|discriminate].
    injection Hfire as <-.
    exists q. simpl.
    split; [reflexivity|]. split; [exact HJ|]. split.
    { intros x Hx. apply HW. eapply take_waiter_sub; eauto. }
    split; [exact HR|]. split; [exact HU|]. split; [exact HF|]. split; [exact HN|].
    split; [exact HC|].
    intros i' t' r' Hin. apply in_app_or in Hin.
    destruct Hin as [Hin|[[= <- <- <-]|[]]]; [eauto|].
    destruct (take_waiter_In _ _ _ _ Htake) as [Hw _].
    destruct (HW _ Hw) as (H1 & H2 & _).
    destruct (HJ _ _ Hjid) as [H3 H4].
    assert (Heq : waiter_token w = job_data job).
    { apply Hinj; [exact H1|exact H3|congruence]. }
    rewrite Heq. eauto.
Qed.

Lemma deduplicated_run evs : forall st st',
  deduplicated tokens st ->
  Forall no_timeout evs ->
  (forall t, In t (submitted evs) -> In t tokens) ->
  run evs st = Some st' ->
  deduplicated tokens st'.
Proof.
  induction evs as [|ev evs IH]; intros st st' Hinv Hnt Hsub; simpl.
  - intros [= <-]. exact Hinv.
  - unfold step.
    destruct (clock st <=? time_of ev); [|discriminate].
    destruct (fire jwt sha256_hex env ev (tick (time_of ev) st)) as [st1|] eqn:Hfire;
      [|discriminate].
    inversion Hnt as [|? ? Hev Hrest]; subst.
    apply IH; [|exact Hrest|].
    + eapply deduplicated_fire; [apply deduplicated_tick; exact Hinv|exact Hev| |exact Hfire].
      intros t Ht. apply Hsub. unfold submitted in *. simpl in *.
      rewrite app_nil_r in Ht. apply in_or_app. left. exact Ht.
    + intros t Ht. apply Hsub. unfold submitted in *. simpl. apply in_or_app. right. exact Ht.
Qed.

(** What the invariant says of one token: it was given to
    [rotate_refresh_token] at most once, and a caller that was answered
    holds the value of that call, which has returned. *)
Lemma deduplicated_token st token :
  deduplicated tokens st ->
  (count_occ string_dec (calls st) token <= 1)%nat
  /\ forall i r, In (i, token, r) (returned st) ->
       results_of token (rotations st) = [r]
       /\ ~ In token (List.map rotation_token (running st)).
Proof.
  intros (q & Hq & HJ & HW & HR & HU & HF & HN & HC & HA).
  assert (Hdisj : forall t r, In t (List.map rotation_token (running st)) ->
                              In (t, r) (rotations st) -> False).
  { intros t r Hin Hr. apply in_map_iff in Hin. destruct Hin as (th & <- & Hin).
    destruct (HR _ Hin) as [_ Hjob]. rewrite (HF _ _ Hr) in Hjob. discriminate. }
  split.
  - apply (proj1 (List.NoDup_count_occ string_dec (calls st))).
    apply NoDup_ListNoDup. unfold calls. apply NoDup_app. split; [exact HU|].
    split; [|exact HN].
    intros t Ht Ht'. rewrite list_elem_of_In in Ht, Ht'.
    apply in_map_iff in Ht'. destruct Ht' as ([t' r] & Heq & Hin). simpl in Heq. subst t'.
    eauto.
  - intros i r Hin. split.
    + apply results_of_unique; [exact HN|eauto].
    + intros Hrun. eauto.
Qed.

End Dedup.

Local Abbreviation waiter := (waiter_of sha256_hex).

Lemma queue_add_idem jid token (q : gmap string Job) :
  queue_add jid token (queue_add jid token q) = queue_add jid token q.
Proof.
  destruct (queue_add_has jid token q) as [job Hjob].
  exact (queue_add_present _ _ _ _ Hjob).
Qed.

Lemma run_submits token now (n : nat) : forall (a : nat) st q,
  queue st = Some q ->
  clock st = now ->
  run (List.map (fun i => Submit i token now) (seq a n)) st =
  Some {| store := store st;
          queue := Some (match n with
                         | O => q
                         | S _ => queue_add (job_id_of token) token q
                         end);
          waiting := (waiting st ++ List.map (waiter token now) (seq a n))%list;
          running := running st;
          rotations := rotations st;
          returned := returned st;
          clock := now |}.
Proof.
  induction n as [|n IH]; intros a st q Hq Hc.
  - simpl. rewrite app_nil_r. destruct st; simpl in *. subst. reflexivity.
  - cbn [seq List.map]. rewrite run_cons, step_now by (symmetry; exact Hc).
    cbn [fire]. rewrite Hq.
    erewrite (IH (S a)); [|simpl; reflexivity|exact Hc]. simpl.
    rewrite <- app_assoc. simpl. f_equal. f_equal. f_equal.
    destruct n; [reflexivity|apply queue_add_idem].
Qed.

Lemma take_waiter_head token now i rest :
  take_waiter i (waiter token now i :: rest) = Some (waiter token now i, rest).
Proof. simpl. rewrite Nat.eqb_refl. reflexivity. Qed.

Lemma run_settles token r now (n : nat) : forall (a : nat) st q,
  queue st = Some q ->
  clock st = now ->
  q !! job_id_of token = Some {| job_data := token; returnvalue := Some r |} ->
  waiting st = List.map (waiter token now) (seq a n) ->
  run (List.map (fun i => Settle i now) (seq a n)) st =
  Some {| store := store st;
          queue := Some q;
          waiting := [];
          running := running st;
          rotations := rotations st;
          returned := (returned st
                       ++ List.map (fun i => (i, token, r)) (seq a n))%list;
          clock := now |}.
Proof.
  induction n as [|n IH]; intros a st q Hq Hc Hjob Hw.
  - simpl in *. rewrite app_nil_r. destruct st; simpl in *. subst. reflexivity.
  - cbn [seq List.map] in Hw |- *. rewrite run_cons, step_now by (symmetry; exact Hc).
    cbn [fire]. rewrite Hw, take_waiter_head, Hq. cbn [waiter_of waiter_job waiter_token].
    rewrite Hjob. cbn [returnvalue].
    erewrite (IH (S a)); [|simpl; reflexivity|exact Hc|exact Hjob|reflexivity]. simpl.
    rewrite <- app_assoc. reflexivity.
Qed.

(** The worker takes the job of [token] when it runs nothing else. *)
Lemma step_take token now st q :
  queue st = Some q ->
  clock st = now ->
  running st = [] ->
  q !! job_id_of token = Some {| job_data := token; returnvalue := None |} ->
  step jwt sha256_hex env (Take (job_id_of token) now) st
  = Some (start (worker (job_id_of token)) token st).
Proof.
  intros Hq Hc Hr Hjob. rewrite step_now by (symmetry; exact Hc).
  cbn [fire]. rewrite Hq, Hjob, Hr. reflexivity.
Qed.



End CoordinatorFacts.

(** *** The coordinator on the sample data *)

(** [sample_waiting] is where one submission at 5000 ms leaves the
    coordinator. *)
Example sample_waiting_reached :
  run SimpleJwt.lib SimpleJwt.digest default_env
    [ Submit 0 sample_refresh 5000 ] (initial true sample_store 5000)
  = Some sample_waiting.
Proof. reflexivity. Qed.

(** Three callers present the sample token at once through the queue: one
    rotation, three times the same pair. *)
Example three_callers_one_rotation :
  exists st,
    run SimpleJwt.lib SimpleJwt.digest default_env
      (submit_all 3 sample_refresh 5000
       ++ work sample_job "unused" 5000 3
       ++ settle_all 3 5000)%list
      (initial true sample_store 5000) = Some st
    /\ rotations st = [(sample_refresh, rotation_success sample_next_pair)]
    /\ returned st = [(0%nat, sample_refresh, rotation_success sample_next_pair);
                      (1%nat, sample_refresh, rotation_success sample_next_pair);
                      (2%nat, sample_refresh, rotation_success sample_next_pair)]
    /\ store st = sample_rotated_store.
Proof.
  eexists. split; [vm_compute; reflexivity|]. repeat split; reflexivity.
Qed.





(** Why the job ids must differ: under a digest that gives every token
    the same job id, the caller of the sample token is handed the result
    of the job another token created. *)
Example colliding_job_ids_share_a_result :
  exists st,
    run SimpleJwt.lib (fun _ => "0") default_env
      ([ Submit 0 "not-a-token" 5000; Submit 1 sample_refresh 5000 ]
       ++ work "0" "unused" 5000 1
       ++ settle_all 2 5000)%list
      (initial true sample_store 5000) = Some st
    /\ returned st = [(0%nat, "not-a-token", rotation_failure "Failed to refresh token");
                      (1%nat, sample_refresh, rotation_failure "Failed to refresh token")]
    /\ calls st = ["not-a-token"].
Proof.
  eexists. split; [vm_compute; reflexivity|]. split; reflexivity.
Qed.

(** * Further properties of the code *)

(** ** Issuing a pair *)

Section IssuerProperties.

Variable jwt : JsonWebToken.
Variable sha256_hex : string -> string.
Variable env : Environment.

Local Abbreviation generate := (generate_token_pair jwt sha256_hex env).
Local Abbreviation rotate := (rotate_refresh_token jwt sha256_hex env).
Local Abbreviation verify_refresh := (verify_refresh_token jwt env).
Local Abbreviation hash := (hash_token sha256_hex).
Local Abbreviation lookup := (lookup_token sha256_hex).
Local Abbreviation is_reused := (reused sha256_hex).
Local Abbreviation expiry_of := (expiry_of env).

(** X1: a successful [generate_token_pair] appends exactly one record to
    the collection and changes nothing else.  The record is unrevoked,
    carries the user, the device, the family (the one passed in, or the
    fresh one), the hash of the refresh token just signed, the time of
    the call as [created_at] and the computed expiry; that hash was not
    in the collection before and now finds this record. *)
Theorem issued_pair_is_recorded uid dev fid uuid now c pair c' :
  generate uid dev fid uuid now c = (inr pair, c') ->
  exists rec,
    c' = (c ++ [rec])%list
    /\ user_id rec = uid
    /\ token_hash rec = hash (refresh_token pair)
    /\ family_id rec = family_of fid uuid
    /\ device_type rec = dev
    /\ created_at rec = now
    /\ is_revoked rec = false
    /\ calculate_expiry (expiry_of dev) now = inr (Some (expires_at rec))
    /\ lookup (refresh_token pair) c = None
    /\ lookup (refresh_token pair) c' = Some rec.
Proof.
  intros Hgen. apply generate_returns in Hgen.
  destruct Hgen as (_ & _ & _ & _ & Hfresh & e & Hexp & ->).
  eexists. split; [reflexivity|]. simpl.
  repeat (split; [reflexivity|]).
  split; [exact Hexp|]. split; [exact Hfresh|].
  unfold lookup_token. rewrite findOne_app.
  unfold hash_token in *. rewrite Hfresh. simpl.
  unfold RefreshToken.by_token_hash. simpl. rewrite String.eqb_refl. reflexivity.
Qed.

(** X2: a failing [generate_token_pair] writes nothing, and whatever went
    wrong inside, the caller sees the one generic error. *)
Theorem failed_issue_writes_nothing uid dev fid uuid now c e c' :
  generate_token_pair jwt sha256_hex env uid dev fid uuid now c = (inl e, c') ->
  c' = c /\ e = Error "Failed to generate authentication tokens".
Proof.
  unfold generate_token_pair, io_try, io_bind, io_lift, io_write_res, io_ret, io_throw.
  destruct (sign jwt _ (JWT_SECRET env) _ now) as [e1|a]; [intros [= <- <-]; auto|].
  destruct (sign jwt _ (JWT_REFRESH_SECRET env) _ now) as [e2|r]; [intros [= <- <-]; auto|].
  destruct (calculate_expiry _ now) as [e3|x]; [intros [= <- <-]; auto|].
  destruct (RefreshToken.create _ _ _ _ _ _ c) as [e4|c'']; [intros [= <- <-]; auto|].
  discriminate.
Qed.

(** X3: the unique index on [token_hash] makes the issue fail, and write
    nothing, when the refresh token that was signed hashes to a value the
    collection already holds. *)
Theorem duplicate_hash_fails_issue uid dev fid uuid now c token stored :
  sign jwt (refresh_payload {| refresh_user_id := uid;
                               refresh_family_id := family_of fid uuid;
                               refresh_device_type := dev |})
       (JWT_REFRESH_SECRET env) (expiry_of dev) now = inr token ->
  lookup token c = Some stored ->
  generate uid dev fid uuid now c
  = (inl (Error "Failed to generate authentication tokens"), c).
Proof.
  intros Hsign Hst.
  assert (Hex : existsb (fun r => String.eqb (token_hash r) (hash token)) c = true).
  { apply findOne_Some in Hst. destruct Hst as [Hh Hin].
    apply existsb_exists. exists stored. auto. }
  unfold generate_token_pair, io_try, io_bind, io_lift, io_write_res, io_ret, io_throw.
  fold (family_of fid uuid). fold (expiry_of dev).
  destruct (sign jwt _ (JWT_SECRET env) _ now) as [e1|a]; [reflexivity|].
  rewrite Hsign.
  destruct (calculate_expiry _ now) as [e3|x]; [reflexivity|].
  unfold RefreshToken.create.
  destruct x as [x|]; [|reflexivity].
  destruct (negb _); [reflexivity|].
  unfold hash_token in Hex. unfold hash_token. rewrite Hex. reflexivity.
Qed.

(** X4: an expiry setting whose last character is not one of [s], [m],
    [h], [d], or whose leading part is not a number, makes every issue
    for that device fail without writing. *)
Theorem malformed_expiry_fails_issue uid dev fid uuid now c :
  multipliers (Js.slice_last (expiry_of dev)) = None
  \/ Js.parseInt (Js.slice_init (expiry_of dev)) = None ->
  generate uid dev fid uuid now c
  = (inl (Error "Failed to generate authentication tokens"), c).
Proof.
  intros Hbad.
  unfold generate_token_pair, io_try, io_bind, io_lift, io_write_res, io_ret, io_throw.
  fold (expiry_of dev).
  destruct (sign jwt _ (JWT_SECRET env) _ now) as [e1|a]; [reflexivity|].
  destruct (sign jwt _ (JWT_REFRESH_SECRET env) _ now) as [e2|r]; [reflexivity|].
  unfold calculate_expiry.
  destruct (multipliers _) as [m|] eqn:Hm; [|reflexivity].
  destruct Hbad as [Hbad|Hbad]; [discriminate|].
  rewrite Hbad. reflexivity.
Qed.

End IssuerProperties.

(** ** Rotating, logging out, revoking *)

Section RevocationProperties.

Variable jwt : JsonWebToken.
Variable sha256_hex : string -> string.
Variable env : Environment.

Local Abbreviation generate := (generate_token_pair jwt sha256_hex env).
Local Abbreviation rotate := (rotate_refresh_token jwt sha256_hex env).
Local Abbreviation verify_refresh := (verify_refresh_token jwt env).
Local Abbreviation hash := (hash_token sha256_hex).
Local Abbreviation lookup := (lookup_token sha256_hex).
Local Abbreviation is_reused := (reused sha256_hex).
Local Abbreviation revoke := (revoke_refresh_token sha256_hex).

(** X5: a successful rotation does two writes and no more.  The record of
    the presented token, which was unrevoked and unexpired, is revoked in
    place; one record is appended for the new refresh token, unrevoked, for
    the user and device the presented token decodes to, in its family.
    Every other record is as it was. *)
Theorem rotation_reissues_in_family token uuid now c r c' :
  rotate token uuid now c = (inr r, c') ->
  success r = true ->
  exists decoded stored (i : nat) new_pair rec,
    verify_refresh token now = inr decoded
    /\ c !! i = Some stored
    /\ token_hash stored = hash token
    /\ live_at now stored
    /\ r = rotation_success new_pair
    /\ c' = (<[i := set_revoked stored]> c ++ [rec])%list
    /\ user_id rec = refresh_user_id decoded
    /\ device_type rec = refresh_device_type decoded
    /\ family_id rec = family_of (Some (refresh_family_id decoded)) uuid
    /\ token_hash rec = hash (refresh_token new_pair)
    /\ is_revoked rec = false.
Proof.
  intros Hrot Hs.
  destruct (rotate_cases jwt sha256_hex env token uuid now c) as (r0 & c0 & Heq & Hcase).
  rewrite Hrot in Heq. injection Heq as <- <-.
  destruct Hcase as [e Hv|d Hv Hre|d st Hv Hst Hrev Hexp|d st e cf Hv Hst Hrev Hexp Hfail
                    |d st p c1 Hv Hst Hrev Hexp Hgen].
  - destruct (rotate_catch_failure e) as [Hf _]. congruence.
  - discriminate.
  - discriminate.
  - discriminate.
  - destruct (updateOne_insert _ _ _ Hst) as (i & Hi & Hu & _).
    apply generate_returns in Hgen.
    destruct Hgen as (_ & _ & _ & _ & _ & x & _ & ->).
    apply findOne_Some in Hst. destruct Hst as [Hh _].
    apply String.eqb_eq in Hh.
    exists d, st, i, p. eexists.
    split; [exact Hv|]. split; [exact Hi|]. split; [exact Hh|].
    split; [split; assumption|]. split; [reflexivity|].
    split; [rewrite Hu; reflexivity|]. simpl. repeat split; reflexivity.
Qed.

(** X6: the presented token is consumed before the new pair is issued.
    When the issue then fails, the call answers "Failed to refresh token"
    without forced logout, the record stays revoked, and the same token
    presented again, while it still verifies, is answered as a reuse. *)
Theorem failed_reissue_still_consumes token uuid now c decoded stored e cf :
  verify_refresh token now = inr decoded ->
  lookup token c = Some stored ->
  live_at now stored ->
  generate (refresh_user_id decoded) (refresh_device_type decoded)
    (Some (refresh_family_id decoded)) uuid now
    (RefreshToken.updateOne (RefreshToken.by_token_hash (hash token)) c) = (inl e, cf) ->
  exists c',
    rotate token uuid now c = (inr (rotation_failure "Failed to refresh token"), c')
    /\ lookup token c' = Some (set_revoked stored)
    /\ forall uuid2 now2 decoded2,
         verify_refresh token now2 = inr decoded2 ->
         fst (rotate token uuid2 now2 c') = inr reuse_detected.
Proof.
  intros Hv Hst [Hrev Hexp] Hgen.
  pose proof (rotate_consumes jwt sha256_hex env token uuid now c decoded stored
                Hv Hst Hrev Hexp) as Hrot.
  rewrite Hgen in Hrot.
  destruct (generate_throws _ _ _ _ _ _ _ _ _ _ _ Hgen) as [-> ->].
  eexists. split; [exact Hrot|].
  assert (Hl : lookup token
                 (RefreshToken.updateOne (RefreshToken.by_token_hash (hash token)) c)
               = Some (set_revoked stored)).
  { unfold lookup_token. rewrite findOne_updateOne by apply by_token_hash_blind.
    unfold lookup_token in Hst. rewrite Hst. reflexivity. }
  split; [exact Hl|].
  intros uuid2 now2 decoded2 Hv2.
  erewrite rotate_reused; [reflexivity|exact Hv2|].
  unfold reused. rewrite Hl. reflexivity.
Qed.

(** X7: with one secret for both kinds of token, the [type] claim still
    keeps them apart: the refresh token of an issued pair is never accepted
    by [verify_access_token], nor its access token by
    [verify_refresh_token], at any time. *)
Theorem tokens_are_not_interchangeable uid dev fid uuid now c pair c' now' :
  jwt_faithful jwt ->
  JWT_SECRET env = JWT_REFRESH_SECRET env ->
  generate uid dev fid uuid now c = (inr pair, c') ->
  (exists e, verify_access_token jwt env (refresh_token pair) now' = inl e)
  /\ (exists e, verify_refresh_token jwt env (access_token pair) now' = inl e).
Proof.
  intros Hlib Hsame Hgen.
  apply generate_returns in Hgen. destruct Hgen as (Ha & Hr & _).
  split.
  - rewrite <- Hsame in Hr.
    unfold verify_access_token, try_catch, bind.
    destruct (Hlib _ _ _ _ _ now' Hr) as [Hv|[m Hv]]; rewrite Hv; simpl; eauto.
  - rewrite Hsame in Ha.
    unfold verify_refresh_token, try_catch, bind.
    destruct (Hlib _ _ _ _ _ now' Ha) as [Hv|[m Hv]]; rewrite Hv; simpl; eauto.
Qed.

Lemma updateOne_other filter c (i : nat) rec :
  c !! i = Some rec -> filter rec = false ->
  RefreshToken.updateOne filter c !! i = Some rec.
Proof.
  revert i. induction c as [|x c IH]; intros i; simpl; [intros H; discriminate H|].
  destruct i as [|i]; simpl.
  - intros [= ->] Hf. rewrite Hf. reflexivity.
  - intros Hi Hf. destruct (filter x); simpl; [exact Hi|apply IH; assumption].
Qed.

Lemma revoke_unfold token c :
  revoke token c =
  (inr (0 <? RefreshToken.modifiedCountOne (RefreshToken.by_token_hash (hash token)) c)%nat,
   RefreshToken.updateOne (RefreshToken.by_token_hash (hash token)) c).
Proof. reflexivity. Qed.

Lemma modifiedCountOne_positive filter c :
  (0 <? RefreshToken.modifiedCountOne filter c)%nat = true
  <-> exists stored, RefreshToken.findOne filter c = Some stored
                     /\ is_revoked stored = false.
Proof.
  unfold RefreshToken.modifiedCountOne.
  destruct (RefreshToken.findOne filter c) as [st|];
    [|split; [discriminate|intros (? & ? & _); discriminate]].
  destruct (is_revoked st) eqn:Hrev; simpl.
  - split; [discriminate|]. intros (s0 & [= <-] & H). congruence.
  - split; [eauto|reflexivity].
Qed.

Lemma updateOne_twice filter c :
  flag_blind filter ->
  RefreshToken.updateOne filter (RefreshToken.updateOne filter c)
  = RefreshToken.updateOne filter c.
Proof.
  intros Hb. induction c as [|x c IH]; simpl; [reflexivity|].
  destruct (filter x) eqn:Hx; simpl.
  - rewrite Hb, Hx. reflexivity.
  - rewrite Hx, IH. reflexivity.
Qed.

Lemma reused_after_updateOne token c :
  is_reused token (RefreshToken.updateOne (RefreshToken.by_token_hash (hash token)) c).
Proof.
  unfold reused, lookup_token.
  rewrite findOne_updateOne by apply by_token_hash_blind.
  destruct (RefreshToken.findOne _ c); reflexivity.
Qed.

(** X8: [revoke_refresh_token] (logout) answers [true] exactly when the
    token has a record that was not yet revoked.  Afterwards the token
    counts as consumed, records with another hash are untouched, and a
    second logout with the same token answers [false] and changes
    nothing. *)
Theorem logout_revokes_one_record token c :
  exists (b : bool) c',
    revoke_refresh_token sha256_hex token c = (inr b, c')
    /\ (b = true <-> exists stored, lookup token c = Some stored
                                   /\ is_revoked stored = false)
    /\ is_reused token c'
    /\ length c' = length c
    /\ (forall (i : nat) rec, c !! i = Some rec -> token_hash rec <> hash token ->
          c' !! i = Some rec)
    /\ revoke token c' = (inr false, c').
Proof.
  eexists _, _. split; [apply revoke_unfold|].
  split; [apply modifiedCountOne_positive|].
  split; [apply reused_after_updateOne|].
  split; [apply updateOne_length|]. split.
  - intros i rec Hi Hne. apply updateOne_other; [exact Hi|].
    unfold RefreshToken.by_token_hash. apply String.eqb_neq. exact Hne.
  - rewrite revoke_unfold.
    rewrite updateOne_twice by apply by_token_hash_blind. f_equal. f_equal.
    destruct (0 <? _)%nat eqn:Hpos; [|reflexivity].
    apply modifiedCountOne_positive in Hpos. destruct Hpos as (st & Hst & Hrev).
    pose proof (reused_after_updateOne token c) as Hre.
    unfold reused, lookup_token in Hre. rewrite Hst in Hre. congruence.
Qed.

(** X9: a refresh token that was logged out and is presented for rotation
    while it still verifies is treated as stolen: the call answers with the
    reuse-detection failure and revokes the whole family. *)
Theorem logged_out_token_is_reuse token uuid now c decoded :
  verify_refresh token now = inr decoded ->
  rotate token uuid now (snd (revoke token c))
  = (inr reuse_detected,
     RefreshToken.revoke_family (refresh_family_id decoded) (snd (revoke token c))).
Proof.
  intros Hv. rewrite revoke_unfold. simpl.
  apply rotate_reused; [exact Hv|apply reused_after_updateOne].
Qed.

End RevocationProperties.

(** ** User-wide and family-wide revocation, cleanup *)

Lemma updateMany_active g c :
  RefreshToken.updateMany (fun r => g r && negb (is_revoked r)) c
  = RefreshToken.updateMany g c.
Proof.
  unfold RefreshToken.updateMany. apply map_ext. intros r.
  destruct (g r); simpl; [|reflexivity].
  destruct (is_revoked r) eqn:Hrev; simpl; [|reflexivity].
  symmetry. apply set_revoked_id. exact Hrev.
Qed.

Lemma modifiedCount_after g c :
  flag_blind g ->
  RefreshToken.modifiedCount (fun r => g r && negb (is_revoked r))
    (RefreshToken.updateMany g c) = 0%nat.
Proof.
  intros Hb. unfold RefreshToken.modifiedCount, RefreshToken.updateMany.
  induction c as [|x c IH]; simpl; [reflexivity|].
  destruct (g x) eqn:Hx; simpl.
  - rewrite andb_false_r. exact IH.
  - rewrite Hx. simpl. exact IH.
Qed.

Lemma updateMany_twice g c :
  flag_blind g ->
  RefreshToken.updateMany g (RefreshToken.updateMany g c) = RefreshToken.updateMany g c.
Proof.
  intros Hb. unfold RefreshToken.updateMany. rewrite List.map_map. apply map_ext.
  intros r. destruct (g r) eqn:Hr; [rewrite Hb, Hr|rewrite Hr]; reflexivity.
Qed.

Lemma modifiedCount_active g c :
  RefreshToken.modifiedCount (fun r => g r && negb (is_revoked r)) c
  = length (List.filter (fun r => g r && negb (is_revoked r)) c).
Proof.
  unfold RefreshToken.modifiedCount. f_equal. apply filter_ext.
  intros r. destruct (g r), (is_revoked r); reflexivity.
Qed.

Lemma by_user_id_blind u : flag_blind (RefreshToken.by_user_id u).
Proof. intros r. reflexivity. Qed.

(** X10: [revoke_all_user_tokens] returns how many of the user's records
    were still unrevoked, leaves no record of that user unrevoked, and
    leaves the records of every other user exactly as they were; called
    again, it returns 0 and changes nothing. *)
Theorem revoke_all_user_tokens_effect uid c :
  exists c',
    revoke_all_user_tokens uid c
    = (inr (length (List.filter (fun r => String.eqb (user_id r) uid
                                          && negb (is_revoked r)) c)), c')
    /\ length c' = length c
    /\ (forall rec, In rec c' -> user_id rec = uid -> is_revoked rec = true)
    /\ (forall (i : nat) rec, c !! i = Some rec -> user_id rec <> uid ->
          c' !! i = Some rec)
    /\ revoke_all_user_tokens uid c' = (inr 0%nat, c').
Proof.
  unfold revoke_all_user_tokens, io_bind, io_read, io_write, io_ret, active_of_user.
  rewrite modifiedCount_active.
  eexists. split; [reflexivity|].
  rewrite updateMany_active.
  split; [apply updateMany_length|]. split; [|split].
  - intros rec Hin Hu. unfold RefreshToken.updateMany in Hin.
    apply in_map_iff in Hin. destruct Hin as (x & Hx & _).
    destruct (RefreshToken.by_user_id uid x) eqn:Hb; subst rec; [reflexivity|].
    unfold RefreshToken.by_user_id in Hb. rewrite Hu, String.eqb_refl in Hb.
    discriminate.
  - intros i rec Hi Hne. rewrite updateMany_lookup, Hi. simpl.
    unfold RefreshToken.by_user_id.
    apply String.eqb_neq in Hne. rewrite Hne. reflexivity.
  - rewrite modifiedCount_after by apply by_user_id_blind.
    rewrite updateMany_active, updateMany_twice by apply by_user_id_blind.
    reflexivity.
Qed.

(** X11: the service methods and the model statics agree on the
    collection they leave: [revoke_token_family] (which filters on
    unrevoked records) leaves what [statics.revoke_family] leaves, and
    [revoke_all_user_tokens] what [statics.revoke_user_tokens] leaves; the
    service methods also return the number of records they changed. *)
Theorem service_revocations_match_statics fid uid c :
  revoke_token_family fid c
  = (inr (length (List.filter (fun r => String.eqb (family_id r) fid
                                        && negb (is_revoked r)) c)),
     RefreshToken.revoke_family fid c)
  /\ snd (revoke_all_user_tokens uid c) = RefreshToken.revoke_user_tokens uid c
  /\ (forall rec, In rec (RefreshToken.revoke_family fid c) ->
        family_id rec = fid -> is_revoked rec = true)
  /\ RefreshToken.revoke_family fid (RefreshToken.revoke_family fid c)
     = RefreshToken.revoke_family fid c.
Proof.
  unfold revoke_token_family, revoke_all_user_tokens, io_bind, io_read, io_write,
    io_ret, active_of_family, active_of_user, RefreshToken.revoke_family,
    RefreshToken.revoke_user_tokens.
  rewrite !updateMany_active, modifiedCount_active. simpl.
  split; [reflexivity|]. split; [reflexivity|]. split.
  - intros rec Hin Hf. unfold RefreshToken.updateMany in Hin.
    apply in_map_iff in Hin. destruct Hin as (x & Hx & _).
    destruct (RefreshToken.by_family_id fid x) eqn:Hb; subst rec; [reflexivity|].
    unfold RefreshToken.by_family_id in Hb. rewrite Hf, String.eqb_refl in Hb.
    discriminate.
  - apply updateMany_twice, by_family_id_blind.
Qed.

(** X12: [cleanup_expired] only deletes.  The count it returns plus the
    records it keeps make up the collection; every kept record is unexpired
    and, if revoked, younger than thirty days; an unexpired, unrevoked
    record is never deleted; a second cleanup at the same time deletes
    nothing. *)
Theorem cleanup_expired_effect now c :
  let deleted := fst (RefreshToken.cleanup_expired now c) in
  let kept := snd (RefreshToken.cleanup_expired now c) in
  (deleted + length kept = length c)%nat
  /\ (forall rec, In rec kept ->
        In rec c /\ now <= expires_at rec
        /\ (is_revoked rec = true -> now - 30 * 24 * 60 * 60 * 1000 <= created_at rec))
  /\ (forall rec, In rec c -> now <= expires_at rec -> is_revoked rec = false ->
        In rec kept)
  /\ RefreshToken.cleanup_expired now kept = (0%nat, kept).
Proof.
  unfold RefreshToken.cleanup_expired. simpl.
  split; [|split; [|split]].
  - induction c as [|x c IH]; simpl; [reflexivity|].
    destruct (RefreshToken.cleanup_filter now x); simpl; lia.
  - intros rec Hin. apply filter_In in Hin. destruct Hin as [Hin Hk].
    split; [exact Hin|]. unfold RefreshToken.cleanup_filter in Hk.
    apply negb_true_iff, orb_false_iff in Hk. destruct Hk as [He Hr].
    apply Z.ltb_ge in He. split; [exact He|].
    intros Hrev. rewrite Hrev in Hr. simpl in Hr. apply Z.ltb_ge in Hr. exact Hr.
  - intros rec Hin He Hrev. apply filter_In. split; [exact Hin|].
    unfold RefreshToken.cleanup_filter. rewrite Hrev. simpl.
    apply Z.ltb_ge in He. rewrite He. reflexivity.
  - induction c as [|x c IH]; simpl; [reflexivity|].
    destruct (RefreshToken.cleanup_filter now x) eqn:Hx; simpl; [exact IH|].
    rewrite Hx. simpl. injection IH as H1 H2. rewrite H1. f_equal. f_equal. exact H2.
Qed.

(** ** Splitting a header on spaces *)

Lemma startsWith_empty s : Js.startsWith s "" = true.
Proof. destruct s; reflexivity. Qed.

Lemma includes_space_cons ch s :
  Js.includes (String ch s) " " = Ascii.eqb ch " " || Js.includes s " ".
Proof.
  change (Js.includes (String ch s) " ")
    with ((if Ascii.eqb " " ch then Js.startsWith s "" else false)
          || Js.includes s " ").
  rewrite startsWith_empty, Ascii.eqb_sym.
  destruct (Ascii.eqb ch " "); reflexivity.
Qed.

Lemma until_space_no_space s :
  Js.includes s " " = false -> JsSplit.until_space s = (s, None).
Proof.
  induction s as [|ch s IH]; [reflexivity|].
  rewrite includes_space_cons. intros H. apply orb_false_iff in H.
  destruct H as [Hc Hs]. simpl. rewrite Hc, (IH Hs). reflexivity.
Qed.

Lemma until_space_word w rest :
  Js.includes w " " = false ->
  JsSplit.until_space (w ++ " " ++ rest) = (w, Some rest).
Proof.
  induction w as [|ch w IH]; [reflexivity|].
  rewrite includes_space_cons. intros H. apply orb_false_iff in H.
  destruct H as [Hc Hs]. simpl. rewrite Hc. simpl in IH. rewrite (IH Hs). reflexivity.
Qed.

Lemma second_word_none h :
  Js.includes h " " = false -> JsSplit.second_word h = None.
Proof.
  intros H. unfold JsSplit.second_word. rewrite (until_space_no_space h H). reflexivity.
Qed.

Lemma second_word_of_two scheme t :
  Js.includes scheme " " = false ->
  Js.includes t " " = false ->
  JsSplit.second_word (scheme ++ " " ++ t) = Some t.
Proof.
  intros Hs Ht. unfold JsSplit.second_word.
  rewrite (until_space_word scheme t Hs). simpl.
  rewrite (until_space_no_space t Ht). reflexivity.
Qed.

(** ** The middleware *)

Section GateProperties.

Variable jwt : JsonWebToken.
Variable env : Environment.
Variable Profile : Type.
Variable findById : string -> result (option IUser).
Variable get_player_profile_by_user_id : string -> result (option Profile).

Local Abbreviation gate :=
  (authenticate_token jwt env Profile findById get_player_profile_by_user_id).
Local Abbreviation optional :=
  (optional_authenticate jwt env Profile findById get_player_profile_by_user_id).

(** X13: a request without a usable credential is answered 401 "Token de
    acceso requerido", the collaborators not being consulted: no (or an
    empty) [access_token] cookie, and no [Authorization] header, or one
    that does not start with "Bearer ", or one that is just "Bearer ". *)
Theorem missing_token_is_required req now :
  truthy_opt (cookie "access_token" req) = false ->
  (authorization req = None
   \/ exists h, authorization req = Some h
                /\ (Js.startsWith h "Bearer " = false \/ h = "Bearer ")) ->
  gate req now = Respond token_required.
Proof.
  intros Hc Hh.
  unfold authenticate_token, authenticate_try, extract_token, header_token.
  rewrite Hc.
  destruct Hh as [->|(h & -> & [Hs| ->])]; [reflexivity| |reflexivity].
  destruct (Js.truthy h); [rewrite Hs|]; reflexivity.
Qed.

(** X14: exactly one source is used.  When the [access_token] cookie is
    present and not empty, the [Authorization] header plays no part: the
    answer is the same whatever the header is, so a good header does not
    rescue a bad cookie. *)
Theorem cookie_takes_priority req now other :
  truthy_opt (cookie "access_token" req) = true ->
  gate req now
  = gate {| cookies := cookies req; authorization := other |} now.
Proof.
  intros Hc.
  unfold authenticate_token, authenticate_try, extract_token.
  assert (Hc' : truthy_opt
                  (cookie "access_token"
                     {| cookies := cookies req; authorization := other |}) = true)
    by exact Hc.
  rewrite Hc, Hc'. reflexivity.
Qed.

(** X15: [next()] is reached only for a verified token of an existing
    user.  When the gate lets a request through, the token it extracted
    was accepted by [verify_access_token], [findById] found the user the
    token names, and [req.user] carries that user's id and roles. *)
Theorem gate_admits_only_verified_users req now u :
  gate req now = Next u ->
  exists token decoded user,
    fst (extract_token req) = Some token
    /\ token <> ""
    /\ verify_access_token jwt env token now = inr decoded
    /\ findById (access_user_id decoded) = inr (Some user)
    /\ id u = user_oid user
    /\ user_roles u = roles user.
Proof.
  unfold authenticate_token, authenticate_try.
  destruct (fst (extract_token req)) as [token|]; [|discriminate].
  destruct token as [|ch rest]; [discriminate|]. cbn [Js.truthy negb].
  unfold bind.
  destruct (verify_access_token jwt env _ now) as [e|decoded] eqn:Hv; [discriminate|].
  destruct (findById _) as [e|[user|]] eqn:Hf; [discriminate| |discriminate].
  destruct (get_player_profile_by_user_id _) as [e|profile]; [discriminate|].
  intros [= <-]. exists (String ch rest), decoded, user.
  repeat split; try assumption; try reflexivity. discriminate.
Qed.

(** X16: [optional_authenticate] sets [req.user] exactly when
    [authenticate_token] would have let the request through, and to the
    same value; in every other case it goes on without a user where the
    gate would have answered. *)
Theorem optional_agrees_with_gate req now u :
  optional_authenticate jwt env Profile findById get_player_profile_by_user_id req now
  = Some u
  <-> authenticate_token jwt env Profile findById get_player_profile_by_user_id req now
      = Next u.
Proof.
  unfold optional_authenticate, authenticate_token, authenticate_try, bind.
  destruct (fst (extract_token req)) as [token|]; [|split; discriminate].
  destruct (negb (Js.truthy token)); [split; discriminate|].
  destruct (verify_access_token jwt env token now) as [e|decoded]; [split; discriminate|].
  destruct (findById _) as [e|[user|]]; [split; discriminate| |split; discriminate].
  destruct (get_player_profile_by_user_id _) as [e|profile]; [split; discriminate|].
  split; intros [= <-]; reflexivity.
Qed.

(** X17: what the gate answers when verification fails for another reason
    than expiry.  A bad signature surfaces as 401 "Error de autenticación"
    with the message "Invalid access token", and a refresh-type token as
    the same answer with "Invalid token type"; neither is the "Token
    inválido" answer. *)
Theorem unverified_token_is_rejected req now token :
  fst (extract_token req) = Some token ->
  token <> "" ->
  (forall m, verify jwt token (JWT_SECRET env) now = inl (JsonWebTokenError m) ->
     gate req now = Respond {| status := 401;
                               body_error := "Error de autenticación";
                               body_message := "Invalid access token" |})
  /\ (forall p, verify jwt token (JWT_SECRET env) now = inr (refresh_payload p) ->
        gate req now = Respond {| status := 401;
                                  body_error := "Error de autenticación";
                                  body_message := "Invalid token type" |}).
Proof.
  intros Hx Hne.
  unfold authenticate_token, authenticate_try. rewrite Hx.
  destruct token as [|ch rest]; [congruence|]. cbn [Js.truthy negb].
  unfold verify_access_token, try_catch, bind.
  split; intros x Hv; rewrite Hv; reflexivity.
Qed.

(** X18: [require_role] lets a request through exactly when it is
    authenticated and one of the allowed roles is among the user's roles;
    an unauthenticated request is answered 401, an authenticated one
    without such a role 403. *)
Theorem require_role_is_intersection allowed (user : option (RequestUser Profile)) :
  (forall u, require_role Profile allowed user = Next u <->
             user = Some u
             /\ exists role, In role allowed /\ In role (user_roles u))
  /\ (user = None -> require_role Profile allowed user = Respond not_authenticated)
  /\ (forall u, user = Some u ->
        (forall role, In role allowed -> ~ In role (user_roles u)) ->
        require_role Profile allowed user = Respond access_denied).
Proof.
  assert (Hrole : forall u, has_role Profile allowed u = true <->
                            exists role, In role allowed /\ In role (user_roles u)).
  { intros u. unfold has_role. rewrite existsb_exists. split.
    - intros (role & Hin & Hex). apply existsb_exists in Hex.
      destruct Hex as (r' & Hin' & Heq). apply String.eqb_eq in Heq. subst r'.
      eauto.
    - intros (role & Hin & Hin'). exists role. split; [exact Hin|].
      apply existsb_exists. exists role. split; [exact Hin'|apply String.eqb_refl]. }
  split; [|split].
  - intros u. unfold require_role. destruct user as [v|]; [|split; [discriminate|intros [? _]; discriminate]].
    destruct (has_role Profile allowed v) eqn:Hr; simpl.
    + split.
      * intros [= <-]. split; [reflexivity|]. apply Hrole. exact Hr.
      * intros [[= <-] _]. reflexivity.
    + split; [discriminate|]. intros [[= <-] Hex]. apply Hrole in Hex. congruence.
  - intros ->. reflexivity.
  - intros u -> Hnone. unfold require_role.
    destruct (has_role Profile allowed u) eqn:Hr; [|reflexivity].
    apply Hrole in Hr. destruct Hr as (role & Hin & Hin'). destruct (Hnone role Hin Hin').
Qed.

End GateProperties.

Section FirebaseGateProperties.

Variable app_initialized : bool.
Variable verifyIdToken : string -> result string.
Variable Profile : Type.
Variable findOne_by_sub : string -> result (option IUser).
Variable get_player_profile_by_user_id : string -> result (option Profile).

Local Abbreviation firebase_gate :=
  (FirebaseGate.authenticate_token app_initialized verifyIdToken Profile
     findOne_by_sub get_player_profile_by_user_id).

(** X19: in the Firebase revision every failure to verify the ID token
    ends as 401 "Token inválido": [verify_id_token] rethrows whatever went
    wrong, an uninitialised app included, as "Token inválido o expirado",
    which is the one message the middleware's [catch] recognises. *)
Theorem firebase_failure_is_token_invalid req token :
  FirebaseGate.bearer_token req = Some token ->
  token <> "" ->
  (app_initialized = false \/ exists e, verifyIdToken token = inl e) ->
  firebase_gate req = Respond FirebaseGate.token_invalid.
Proof.
  intros Hb Hne Hfail.
  unfold FirebaseGate.authenticate_token, FirebaseGate.authenticate_try. rewrite Hb.
  destruct token as [|ch rest]; [congruence|]. cbn [Js.truthy negb].
  unfold FirebaseGate.verify_id_token, try_catch, bind.
  destruct Hfail as [->|[e He]]; [reflexivity|].
  destruct app_initialized; [rewrite He|]; reflexivity.
Qed.

(** X20: the Firebase revision reads the [Authorization] header only.  A
    request that has no header, or whose header has no space in it, is
    answered 401 "Token de acceso requerido" whatever cookies it
    carries. *)
Theorem firebase_gate_needs_the_header req :
  (authorization req = None
   \/ exists h, authorization req = Some h /\ Js.includes h " " = false) ->
  firebase_gate req = Respond FirebaseGate.token_required.
Proof.
  intros Hh.
  unfold FirebaseGate.authenticate_token, FirebaseGate.authenticate_try,
    FirebaseGate.bearer_token.
  destruct Hh as [->|(h & -> & Hns)]; [reflexivity|].
  destruct (Js.truthy h); [|reflexivity].
  rewrite (second_word_none h Hns). reflexivity.
Qed.

End FirebaseGateProperties.

(** ** The worker, and the coordinator without its queue *)

Section CoordinatorProperties.

Variable jwt : JsonWebToken.
Variable sha256_hex : string -> string.
Variable env : Environment.

Local Abbreviation rotate := (rotate_refresh_token jwt sha256_hex env).
Local Abbreviation generate := (generate_token_pair jwt sha256_hex env).
Local Abbreviation run := (run jwt sha256_hex env).
Local Abbreviation hash := (hash_token sha256_hex).

Lemma rotate_catch_message e m :
  error (rotate_catch e) = Some m ->
  Js.includes m "expired" || Js.includes m "invalid" = true
  \/ m = "Failed to refresh token".
Proof.
  unfold rotate_catch.
  destruct (instanceof_Error e && _) eqn:Hc; simpl; intros [= <-]; [|auto].
  left. apply andb_true_iff in Hc. apply Hc.
Qed.

(** X21: [process_refresh_job] never takes its [catch] branch.  It returns
    what [rotate_refresh_token] returns for the job's token, with the same
    effect on the collection, and so never answers "Internal error during
    token refresh". *)
Theorem process_refresh_job_is_the_rotation job uuid now c :
  exists r c',
    process_refresh_job jwt sha256_hex env job uuid now c = (inr r, c')
    /\ rotate (job_data job) uuid now c = (inr r, c')
    /\ error r <> Some "Internal error during token refresh".
Proof.
  destruct (rotate_cases jwt sha256_hex env (job_data job) uuid now c)
    as (r & c' & Hrot & Hcase).
  exists r, c'. split; [|split; [exact Hrot|]].
  - unfold process_refresh_job, io_try. rewrite Hrot. reflexivity.
  - destruct Hcase as [e Hv|d Hv Hre|d st Hv Hst Hrev Hexp|d st e cf Hv Hst Hrev Hexp Hfail
                      |d st p c1 Hv Hst Hrev Hexp Hgen]; try discriminate.
    intros Hm. apply rotate_catch_message in Hm.
    destruct Hm as [Hm|Hm]; [vm_compute in Hm|]; discriminate.
Qed.

(** The pair that was just issued cannot be issued again at the same
    time: it would be the same refresh token. *)
Lemma generate_again_fails uid dev fid uuid now c new_pair c' :
  generate uid dev fid uuid now c = (inr new_pair, c') ->
  generate uid dev fid uuid now c'
  = (inl (Error "Failed to generate authentication tokens"), c').
Proof.
  unfold generate_token_pair, io_try, io_bind, io_lift, io_write_res, io_ret, io_throw.
  destruct (sign jwt _ (JWT_SECRET env) _ now) as [e1|a]; [discriminate|].
  destruct (sign jwt _ (JWT_REFRESH_SECRET env) _ now) as [e2|r]; [discriminate|].
  destruct (calculate_expiry _ now) as [e3|x]; [discriminate|].
  unfold RefreshToken.create.
  destruct x as [e|]; [|discriminate].
  destruct (negb _); [discriminate|].
  destruct (existsb _ c) eqn:Hex; [discriminate|].
  intros [= <- <-].
  rewrite existsb_app. simpl. rewrite String.eqb_refl, orb_true_r. reflexivity.
Qed.

(** One stretch of a call that is suspended again, and one that returns. *)
Lemma step_resume_suspends o uuid now st th rest p c' :
  clock st <= now ->
  take_rotation o (running st) = Some (th, rest) ->
  resume jwt sha256_hex env (rotation_token th) uuid now (rotation_at th) (store st)
  = (inl p, c') ->
  step jwt sha256_hex env (Resume o uuid now) st =
  Some {| store := c'; queue := queue st; waiting := waiting st;
          running := (rest ++ [{| rotation_owner := rotation_owner th;
                                  rotation_token := rotation_token th;
                                  rotation_at := p |}])%list;
          rotations := rotations st; returned := returned st; clock := now |}.
Proof.
  intros Hc Ht Hr. unfold step. cbn [time_of].
  rewrite (proj2 (Z.leb_le _ _) Hc). cbn [fire tick running store].
  rewrite Ht, Hr. reflexivity.
Qed.

Lemma step_resume_returns o uuid now st th rest r c' :
  clock st <= now ->
  take_rotation o (running st) = Some (th, rest) ->
  resume jwt sha256_hex env (rotation_token th) uuid now (rotation_at th) (store st)
  = (inr r, c') ->
  step jwt sha256_hex env (Resume o uuid now) st =
  Some (finish (rotation_owner th) (rotation_token th) r
          {| store := c'; queue := queue st; waiting := waiting st;
             running := rest;
             rotations := rotations st; returned := returned st; clock := now |}).
Proof.
  intros Hc Ht Hr. unfold step. cbn [time_of].
  rewrite (proj2 (Z.leb_le _ _) Hc). cbn [fire tick running store].
  rewrite Ht, Hr. reflexivity.
Qed.

(** A submission while the queue is absent. *)
Lemma step_submit_degraded i token now st :
  queue st = None ->
  clock st <= now ->
  step jwt sha256_hex env (Submit i token now) st =
  Some {| store := store st; queue := None; waiting := waiting st;
          running := (running st ++
            [{| rotation_owner := caller i; rotation_token := token;
                rotation_at := at_entry |}])%list;
          rotations := rotations st; returned := returned st; clock := now |}.
Proof.
  intros Hq Hc. unfold step. cbn [time_of].
  rewrite (proj2 (Z.leb_le _ _) Hc). cbn [fire tick queue]. rewrite Hq.
  unfold start. simpl. rewrite Hq. reflexivity.
Qed.

(** X22: without the queue [add_refresh_job] queues nothing and nobody
    waits: the submission starts the caller's own call of
    [rotate_refresh_token].  When that call runs with no other step in
    between, the caller is answered with what [rotate_refresh_token]
    returns on the collection as it was, and the collection is left as
    [rotate_refresh_token] leaves it.  (Calls that overlap interleave at
    their [await]s and are not covered.) *)
Theorem degraded_call_is_the_rotation st i token uuid now :
  queue st = None ->
  clock st <= now ->
  Forall (fun th => rotation_owner th <> caller i) (running st) ->
  exists (k : nat) r c1,
    rotate_refresh_token jwt sha256_hex env token uuid now (store st) = (inr r, c1)
    /\ run (Submit i token now :: rotate_alone i uuid now k) st =
       Some {| store := c1;
               queue := None;
               waiting := waiting st;
               running := running st;
               rotations := (rotations st ++ [(token, r)])%list;
               returned := (returned st ++ [(i, token, r)])%list;
               clock := now |}.
Proof.
  intros Hq Hclock Hidle.
  destruct (rotation_uninterrupted jwt sha256_hex env token uuid now (store st))
    as (k & r & c1 & _ & Hrot & Hend).
  exists k, r, c1. split; [exact Hrot|].
  rewrite run_cons, (step_submit_degraded i token now st Hq Hclock).
  unfold rotate_alone.
  erewrite (run_resumes jwt sha256_hex env (caller i) token uuid now r c1 k at_entry _
              (running st));
    [|reflexivity|exact Hidle|simpl; lia|exact Hend].
  reflexivity.
Qed.

(** X29: without the queue, two calls that overlap get past the reuse
    check together.  Callers [i] and [j] present the same token, which
    verifies and whose record is live, and their calls advance in turns
    within one reading of the clock: both look the token up before either
    consumes it.  Caller [i] is answered as if it were alone.  Caller [j]
    is answered "Failed to refresh token" without forced logout, not with
    the reuse-detection failure, and the collection is the one a single
    rotation leaves: the family is not revoked. *)
Theorem overlapping_calls_escape_reuse_detection st i j token uuid now decoded stored :
  queue st = None ->
  running st = [] ->
  clock st <= now ->
  i <> j ->
  verify_refresh_token jwt env token now = inr decoded ->
  lookup_token sha256_hex token (store st) = Some stored ->
  live_at now stored ->
  exists r c1,
    rotate_refresh_token jwt sha256_hex env token uuid now (store st) = (inr r, c1)
    /\ run (overlapped i j token uuid now) st =
       Some {| store := c1;
               queue := None;
               waiting := waiting st;
               running := [];
               rotations := (rotations st
                             ++ [(token, r);
                                 (token, rotation_failure "Failed to refresh token")])%list;
               returned := (returned st
                            ++ [(i, token, r);
                                (j, token, rotation_failure "Failed to refresh token")])%list;
               clock := now |}.
Proof.
  intros Hq Hrun Hclock Hij Hv Hst [Hrev Hexp].
  unfold lookup_token in Hst.
  assert (Hnow : now <= now) by lia.
  assert (Hji : Nat.eqb j i = false) by (apply Nat.eqb_neq; congruence).
  assert (Hij' : Nat.eqb i j = false) by (apply Nat.eqb_neq; exact Hij).
  assert (Hlive : (expires_at stored <? now) = false) by (apply Z.ltb_ge; exact Hexp).
  set (c := store st) in *.
  set (c' := RefreshToken.updateOne (RefreshToken.by_token_hash (hash token)) c).
  (* what a single rotation does *)
  assert (Hrot : rotate token uuid now c =
                 match generate (refresh_user_id decoded) (refresh_device_type decoded)
                         (Some (refresh_family_id decoded)) uuid now c' with
                 | (inr p, c2) => (inr (rotation_success p), c2)
                 | (inl e, c2) => (inr (rotate_catch e), c2)
                 end).
  { unfold rotate_refresh_token, rotate_try, io_try, io_bind, io_lift, io_read,
      io_write, io_ret.
    rewrite Hv. simpl. fold c. rewrite Hst, Hrev, Hlive. fold c'.
    destruct (generate _ _ _ uuid now c') as [[e|p] c2]; reflexivity. }
  unfold overlapped.
  (* the two submissions *)
  rewrite run_cons, (step_submit_degraded i token now st Hq Hclock).
  rewrite Hrun. cbn [app].
  rewrite run_cons.
  erewrite step_submit_degraded; [|reflexivity|exact Hnow].
  cbn [store queue waiting running rotations returned clock app].
  (* both look the token up *)
  rewrite run_cons.
  erewrite step_resume_suspends;
    [|exact Hnow
     |cbn [running take_rotation rotation_owner owner_eqb]; rewrite Nat.eqb_refl; reflexivity
     |cbn [resume rotation_token rotation_at store]; rewrite Hv; reflexivity].
  cbn [store queue waiting running rotations returned clock app rotation_owner rotation_token].
  rewrite run_cons.
  erewrite step_resume_suspends;
    [|exact Hnow
     |cbn [running take_rotation rotation_owner owner_eqb]; rewrite Nat.eqb_refl; reflexivity
     |cbn [resume rotation_token rotation_at store]; rewrite Hv; reflexivity].
  cbn [store queue waiting running rotations returned clock app rotation_owner rotation_token].
  fold c. rewrite Hst.
  (* both consume it *)
  rewrite run_cons.
  erewrite step_resume_suspends;
    [|exact Hnow
     |cbn [running take_rotation rotation_owner owner_eqb]; rewrite Nat.eqb_refl; reflexivity
     |cbn [resume rotation_token rotation_at store]; rewrite Hrev, Hlive; reflexivity].
  cbn [store queue waiting running rotations returned clock app rotation_owner rotation_token].
  rewrite run_cons.
  erewrite step_resume_suspends;
    [|exact Hnow
     |cbn [running take_rotation rotation_owner owner_eqb]; rewrite Nat.eqb_refl; reflexivity
     |cbn [resume rotation_token rotation_at store]; rewrite Hrev, Hlive; reflexivity].
  cbn [store queue waiting running rotations returned clock app rotation_owner rotation_token].
  fold c. fold c'.
  assert (Htwice : RefreshToken.updateOne (RefreshToken.by_token_hash (hash token)) c' = c')
    by (apply updateOne_twice, by_token_hash_blind).
  rewrite Htwice.
  (* both issue *)
  rewrite Hrot.
  destruct (generate (refresh_user_id decoded) (refresh_device_type decoded)
              (Some (refresh_family_id decoded)) uuid now c') as [[e|p] c2] eqn:Hgen.
  - destruct (generate_throws jwt sha256_hex env _ _ _ _ _ _ _ _ Hgen) as [-> ->].
    do 2 eexists. split; [reflexivity|].
    rewrite run_cons.
    erewrite step_resume_returns;
      [|exact Hnow
       |cbn [running take_rotation rotation_owner owner_eqb]; rewrite Nat.eqb_refl; reflexivity
       |cbn [resume rotation_token rotation_at store]; rewrite Hgen; reflexivity].
    unfold finish.
    cbn [store queue waiting running rotations returned clock app rotation_owner rotation_token].
    rewrite run_cons.
    erewrite step_resume_returns;
      [|exact Hnow
       |cbn [running take_rotation rotation_owner owner_eqb]; rewrite Nat.eqb_refl; reflexivity
       |cbn [resume rotation_token rotation_at store]; rewrite Hgen; reflexivity].
    unfold finish.
    cbn [store queue waiting running rotations returned clock app rotation_owner rotation_token run].
    rewrite <- !app_assoc. reflexivity.
  - pose proof (generate_again_fails _ _ _ _ _ _ _ _ Hgen) as Hagain.
    do 2 eexists. split; [reflexivity|].
    rewrite run_cons.
    erewrite step_resume_returns;
      [|exact Hnow
       |cbn [running take_rotation rotation_owner owner_eqb]; rewrite Nat.eqb_refl; reflexivity
       |cbn [resume rotation_token rotation_at store]; rewrite Hgen; reflexivity].
    unfold finish.
    cbn [store queue waiting running rotations returned clock app rotation_owner rotation_token].
    rewrite run_cons.
    erewrite step_resume_returns;
      [|exact Hnow
       |cbn [running take_rotation rotation_owner owner_eqb]; rewrite Nat.eqb_refl; reflexivity
       |cbn [resume rotation_token rotation_at store]; rewrite Hagain; reflexivity].
    unfold finish.
    cbn [store queue waiting running rotations returned clock app rotation_owner rotation_token run].
    rewrite <- !app_assoc. reflexivity.
Qed.

End CoordinatorProperties.

(** ** The controller *)

(** X23: on a well-formed header both extractions find the same token.
    For a token without spaces, "Bearer " followed by the token gives
    the token to the middleware ([startsWith] and [substring(7)]) and to
    the controller ([split(" ")[1]]) alike; the controller takes the second
    word after any scheme word, not only after "Bearer". *)
Theorem bearer_header_yields_token jar scheme t :
  t <> "" ->
  Js.includes t " " = false ->
  Js.includes scheme " " = false ->
  truthy_opt (cookie "refresh_token"
                {| cookies := jar; authorization := Some (scheme ++ " " ++ t) |}) = false ->
  extract_refresh_token {| cookies := jar; authorization := Some (scheme ++ " " ++ t) |}
  = (Some t, Some from_header)
  /\ header_token {| cookies := jar; authorization := Some ("Bearer " ++ t) |}
     = (Some t, Some from_header).
Proof.
  intros Hne Ht Hs Hc. split.
  - unfold extract_refresh_token. rewrite Hc. cbn [authorization].
    assert (Htr : Js.truthy (scheme ++ " " ++ t) = true)
      by (destruct scheme; reflexivity).
    rewrite Htr, (second_word_of_two scheme t Hs Ht). reflexivity.
  - destruct t; [congruence|]. reflexivity.
Qed.

Section ControllerProperties.

Variable add_refresh_job : string -> io ITokenRotationResult.
Variable sha256_hex : string -> string.

Local Abbreviation handle_refresh := (refresh add_refresh_job).
Local Abbreviation handle_logout := (logout sha256_hex).

(** X24: [refresh] answers on the channel the token came by.  After a
    successful rotation the new pair is in the body exactly when the token
    came by header, and cookies are set exactly when it came by cookie.
    After a failed one the answer is 401, carries the rotation's
    [should_logout], no tokens, and clears the cookies exactly when
    [should_logout] is true and the token came by cookie.  The collection
    is left as [add_refresh_job] left it. *)
Theorem refresh_answers_on_the_channel_used req c token source result c' :
  extract_refresh_token req = (Some token, source) ->
  token <> "" ->
  add_refresh_job token c = (inr result, c') ->
  exists resp,
    handle_refresh req c = (inr resp, c')
    /\ (forall new_pair,
          success result = true -> tokens result = Some new_pair ->
          http_status resp = 200
          /\ (json_tokens resp = Some new_pair <-> source = Some from_header)
          /\ (json_tokens resp = None <-> source <> Some from_header)
          /\ (cookies_written resp
              = set_auth_cookies (access_token new_pair) (refresh_token new_pair)
                  (refresh_expires_in new_pair)
              <-> source = Some from_cookie)
          /\ (cookies_written resp = NoCookies <-> source <> Some from_cookie))
    /\ (success result = false ->
          http_status resp = 401
          /\ json_should_logout resp = should_logout result
          /\ json_tokens resp = None
          /\ (cookies_written resp = ClearAuthCookies
              <-> should_logout result = Some true /\ source = Some from_cookie)
          /\ (cookies_written resp = NoCookies
              <-> ~ (should_logout result = Some true /\ source = Some from_cookie))).
Proof using add_refresh_job.
  clear sha256_hex. intros Hx Hne Hjob.
  assert (Hrun : handle_refresh req c = (inr (refresh_respond source result), c')).
  { unfold refresh, io_try, io_bind, io_ret. rewrite Hx.
    destruct token as [|ch rest]; [congruence|]. simpl. rewrite Hjob. reflexivity. }
  eexists. split; [exact Hrun|].
  unfold refresh_respond. split.
  - intros new_pair Hs Ht. rewrite Hs, Ht. simpl.
    split; [reflexivity|].
    destruct source as [[|]|]; simpl; unfold set_auth_cookies;
      repeat split; intros; try congruence; try discriminate.
  - intros Hs. rewrite Hs. simpl.
    split; [reflexivity|]. split; [reflexivity|]. split; [reflexivity|].
    destruct (should_logout result) as [[|]|], source as [[|]|]; simpl;
      intuition (try congruence; try discriminate).
Qed.

(** X25: a [refresh] request that brings no refresh token (no cookie, and
    no header or a header without a space) is answered 401 "Refresh token
    requerido"; the coordinator is not called and the collection is not
    touched. *)
Theorem refresh_without_token_is_refused req c :
  truthy_opt (cookie "refresh_token" req) = false ->
  (authorization req = None
   \/ exists h, authorization req = Some h /\ Js.includes h " " = false) ->
  handle_refresh req c = (inr refresh_token_required, c).
Proof.
  intros Hc Hh.
  unfold refresh, io_try, io_bind, io_ret, extract_refresh_token. rewrite Hc.
  destruct Hh as [->|(h & -> & Hns)]; [reflexivity|].
  destruct (Js.truthy h); [|reflexivity].
  rewrite (second_word_none h Hns). reflexivity.
Qed.

(** X26: [logout] always answers 200.  It revokes the record of the token
    it was given and nothing else (with no token it writes nothing), so
    every record keeps its place and its fields, and it clears the cookies
    exactly when the token came by cookie. *)
Theorem logout_always_succeeds req c :
  exists resp c',
    handle_logout req c = (inr resp, c')
    /\ http_status resp = 200
    /\ json_success resp = true
    /\ only_revokes c c'
    /\ c' = (if truthy_opt (fst (extract_refresh_token req))
             then RefreshToken.updateOne
                    (RefreshToken.by_token_hash
                       (hash_token sha256_hex
                          (default "" (fst (extract_refresh_token req))))) c
             else c)
    /\ (cookies_written resp = ClearAuthCookies
        <-> snd (extract_refresh_token req) = Some from_cookie).
Proof.
  unfold logout, io_try, io_bind, io_ret.
  destruct (extract_refresh_token req) as [token source]. simpl.
  destruct (truthy_opt token) eqn:Ht.
  - unfold revoke_refresh_token, io_bind, io_read, io_write, io_ret. simpl.
    eexists _, _. split; [reflexivity|]. simpl.
    split; [reflexivity|]. split; [reflexivity|].
    split; [apply only_revokes_updateOne|]. split; [reflexivity|].
    destruct source as [[|]|]; simpl; split; intros; congruence.
  - eexists _, _. split; [reflexivity|]. simpl.
    split; [reflexivity|]. split; [reflexivity|].
    split; [apply only_revokes_refl|]. split; [reflexivity|].
    destruct source as [[|]|]; simpl; split; intros; congruence.
Qed.

End ControllerProperties.

(** ** Lifetimes and user-wide logout *)

Lemma parse_expiry_matches_calculate_expiry s now e :
  calculate_expiry s now = inr (Some e) -> parse_expiry_to_ms s = Some (e - now).
Proof.
  unfold calculate_expiry, parse_expiry_to_ms.
  destruct (multipliers (Js.slice_last s)) as [m|]; [|discriminate].
  destruct (Js.parseInt (Js.slice_init s)) as [v|]; simpl; [|discriminate].
  destruct (Z.abs (now + v * m) <=? 8640000000000000); [|discriminate].
  intros [= <-]. f_equal. lia.
Qed.

Section LifetimeProperties.

Variable jwt : JsonWebToken.
Variable sha256_hex : string -> string.
Variable env : Environment.

Local Abbreviation generate := (generate_token_pair jwt sha256_hex env).
Local Abbreviation rotate := (rotate_refresh_token jwt sha256_hex env).
Local Abbreviation lookup := (lookup_token sha256_hex).

(** X27: the controller and the service agree on the lifetime of a
    refresh token.  For a pair that was issued, the [maxAge] the controller
    computes from [refresh_expires_in] with [parse_expiry_to_ms] is the
    number of milliseconds [calculate_expiry] added to its reading [now] of
    the clock to get the [expires_at] of the record; the access cookie
    always gets fifteen minutes. *)
Theorem refresh_cookie_max_age_is_record_lifetime uid dev fid uuid now c pair c' :
  generate_token_pair jwt sha256_hex env uid dev fid uuid now c = (inr pair, c') ->
  exists rec,
    lookup (refresh_token pair) c' = Some rec
    /\ calculate_expiry (refresh_expires_in pair) now = inr (Some (expires_at rec))
    /\ set_auth_cookies (access_token pair) (refresh_token pair) (refresh_expires_in pair)
       = SetAuthCookies (access_token pair) (refresh_token pair) 900000
           (Some (expires_at rec - now)).
Proof.
  intros Hgen. apply generate_returns in Hgen.
  destruct Hgen as (_ & _ & _ & Hexp & Hfresh & e & Hcalc & ->).
  eexists. split; [|split].
  - unfold lookup_token. rewrite findOne_app.
    unfold lookup_token in Hfresh. rewrite Hfresh. simpl.
    unfold RefreshToken.by_token_hash. simpl. rewrite String.eqb_refl. reflexivity.
  - rewrite Hexp. exact Hcalc.
  - unfold set_auth_cookies. rewrite Hexp.
    rewrite (parse_expiry_matches_calculate_expiry _ _ _ Hcalc). reflexivity.
Qed.

(** X28: after [revoke_all_user_tokens] no refresh token of that user can
    be rotated any more: presenting one whose record belongs to the user
    fails, at any time. *)
Theorem revoked_user_cannot_rotate uid token uuid now c rec :
  lookup token c = Some rec ->
  user_id rec = uid ->
  exists r c2,
    rotate token uuid now (snd (revoke_all_user_tokens uid c)) = (inr r, c2)
    /\ success r = false.
Proof.
  intros Hst Hu.
  assert (Hre : reused sha256_hex token (snd (revoke_all_user_tokens uid c))).
  { unfold revoke_all_user_tokens, io_bind, io_read, io_write, io_ret. simpl.
    unfold reused, lookup_token.
    rewrite findOne_updateMany by apply by_token_hash_blind.
    unfold lookup_token in Hst. rewrite Hst. simpl.
    unfold active_of_user, RefreshToken.by_user_id. rewrite Hu, String.eqb_refl.
    destruct (is_revoked rec) eqn:Hrev; simpl; [exact Hrev|reflexivity]. }
  destruct (rotate_of_reused jwt sha256_hex env token uuid now _ Hre)
    as (r & c2 & Heq & Hs & _).
  eauto.
Qed.

End LifetimeProperties.

(** ** The further properties on the sample data *)

(** The sample login writes the sample record. *)
Lemma issued_pair_is_recorded_witness :
  exists rec,
    sample_store = ([] ++ [rec])%list
    /\ user_id rec = "user-1"
    /\ token_hash rec = hash_token SimpleJwt.digest (refresh_token sample_pair)
    /\ family_id rec = family_of None "family-1"
    /\ device_type rec = web
    /\ created_at rec = 1000
    /\ is_revoked rec = false
    /\ calculate_expiry (expiry_of default_env web) 1000 = inr (Some (expires_at rec))
    /\ lookup_token SimpleJwt.digest (refresh_token sample_pair) [] = None
    /\ lookup_token SimpleJwt.digest (refresh_token sample_pair) sample_store = Some rec.
Proof.
  apply (issued_pair_is_recorded SimpleJwt.lib SimpleJwt.digest default_env
           "user-1" web None "family-1" 1000 [] sample_pair sample_store).
  vm_compute. reflexivity.
Defined.

(** The sample login repeated in the same millisecond signs the same
    refresh token, whose hash is taken: the call fails and the collection
    is as it was. *)
Lemma failed_issue_writes_nothing_witness :
  generate_token_pair SimpleJwt.lib SimpleJwt.digest default_env
    "user-1" web None "family-1" 1000 sample_store
  = (inl (Error "Failed to generate authentication tokens"), sample_store)
  /\ sample_store = sample_store
  /\ Error "Failed to generate authentication tokens"
     = Error "Failed to generate authentication tokens".
Proof.
  assert (H : generate_token_pair SimpleJwt.lib SimpleJwt.digest default_env
                "user-1" web None "family-1" 1000 sample_store
              = (inl (Error "Failed to generate authentication tokens"), sample_store))
    by (vm_compute; reflexivity).
  split; [exact H|].
  exact (failed_issue_writes_nothing SimpleJwt.lib SimpleJwt.digest default_env
           "user-1" web None "family-1" 1000 sample_store _ _ H).
Defined.

Lemma duplicate_hash_fails_issue_witness :
  generate_token_pair SimpleJwt.lib SimpleJwt.digest default_env
    "user-1" web None "family-1" 1000 sample_store
  = (inl (Error "Failed to generate authentication tokens"), sample_store).
Proof.
  apply (duplicate_hash_fails_issue SimpleJwt.lib SimpleJwt.digest default_env
           "user-1" web None "family-1" 1000 sample_store sample_refresh sample_record).
  - vm_compute. reflexivity.
  - vm_compute. reflexivity.
Defined.

(** ["1w"] is a lifetime [calculate_expiry] rejects. *)
Lemma malformed_expiry_fails_issue_witness :
  generate_token_pair SimpleJwt.lib SimpleJwt.digest weekly_env
    "user-1" web None "family-1" 1000 []
  = (inl (Error "Failed to generate authentication tokens"), []).
Proof.
  apply (malformed_expiry_fails_issue SimpleJwt.lib SimpleJwt.digest weekly_env
           "user-1" web None "family-1" 1000 []).
  left. vm_compute. reflexivity.
Defined.

(** The sample rotation revokes the sample record in place and appends a
    record of the same user, device and family. *)
Lemma rotation_reissues_in_family_witness :
  exists stored (i : nat) rec,
    sample_store !! i = Some stored
    /\ token_hash stored = SimpleJwt.digest sample_refresh
    /\ sample_rotated_store = (<[i := set_revoked stored]> sample_store ++ [rec])%list
    /\ token_hash rec = SimpleJwt.digest (refresh_token sample_next_pair)
    /\ is_revoked rec = false.
Proof.
  destruct (rotation_reissues_in_family SimpleJwt.lib SimpleJwt.digest default_env
              sample_refresh "unused" 5000 sample_store
              (rotation_success sample_next_pair) sample_rotated_store)
    as (decoded & stored & i & new_pair & rec & _ & Hi & Hh & _ & Hr & Hc & _ & _ & _ & Hn & Hv).
  - vm_compute. reflexivity.
  - reflexivity.
  - exists stored, i, rec.
    assert (Hp : new_pair = sample_next_pair).
    { unfold rotation_success in Hr. injection Hr as Hr. symmetry. exact Hr. }
    rewrite Hp in Hn.
    split; [exact Hi|]. split; [exact Hh|]. split; [exact Hc|]. split; [exact Hn|exact Hv].
Defined.

(** The sample token rotated in the millisecond of its login: the new
    refresh token would be the old one, so the issue fails, and the token
    is spent all the same. *)
Lemma failed_reissue_still_consumes_witness :
  exists c',
    rotate_refresh_token SimpleJwt.lib SimpleJwt.digest default_env
      sample_refresh "unused" 1000 sample_store
    = (inr (rotation_failure "Failed to refresh token"), c')
    /\ lookup_token SimpleJwt.digest sample_refresh c' = Some (set_revoked sample_record)
    /\ fst (rotate_refresh_token SimpleJwt.lib SimpleJwt.digest default_env
              sample_refresh "unused" 2000 c') = inr reuse_detected.
Proof.
  destruct (failed_reissue_still_consumes SimpleJwt.lib SimpleJwt.digest default_env
              sample_refresh "unused" 1000 sample_store
              {| refresh_user_id := "user-1"; refresh_family_id := "family-1";
                 refresh_device_type := web |}
              sample_record
              (Error "Failed to generate authentication tokens")
              (RefreshToken.updateOne
                 (RefreshToken.by_token_hash (hash_token SimpleJwt.digest sample_refresh))
                 sample_store))
    as (c' & Hrot & Hlook & Hnext).
  - vm_compute. reflexivity.
  - vm_compute. reflexivity.
  - split; [reflexivity|]. simpl. lia.
  - vm_compute. reflexivity.
  - exists c'. split; [exact Hrot|]. split; [exact Hlook|].
    apply (Hnext "unused" 2000
             {| refresh_user_id := "user-1"; refresh_family_id := "family-1";
                refresh_device_type := web |}).
    vm_compute. reflexivity.
Defined.

(** With one secret for both kinds, the refresh token of a login is still
    no access token and its access token no refresh token. *)
Lemma tokens_are_not_interchangeable_witness :
  (exists e, verify_access_token SimpleJwt.lib shared_secret_env
               (refresh_token shared_secret_pair) 2000 = inl e)
  /\ (exists e, verify_refresh_token SimpleJwt.lib shared_secret_env
                  (access_token shared_secret_pair) 2000 = inl e).
Proof.
  apply (tokens_are_not_interchangeable SimpleJwt.lib SimpleJwt.digest shared_secret_env
           "user-1" web None "family-1" 1000 [] shared_secret_pair
           (snd shared_secret_login) 2000 simple_jwt_faithful).
  - reflexivity.
  - vm_compute. reflexivity.
Defined.

(** The sample token after a logout. *)
Lemma logged_out_token_is_reuse_witness :
  rotate_refresh_token SimpleJwt.lib SimpleJwt.digest default_env sample_refresh "unused" 2000
    (snd (revoke_refresh_token SimpleJwt.digest sample_refresh sample_store))
  = (inr reuse_detected,
     RefreshToken.revoke_family "family-1"
       (snd (revoke_refresh_token SimpleJwt.digest sample_refresh sample_store))).
Proof.
  apply (logged_out_token_is_reuse SimpleJwt.lib SimpleJwt.digest default_env
           sample_refresh "unused" 2000 sample_store
           {| refresh_user_id := "user-1"; refresh_family_id := "family-1";
              refresh_device_type := web |}).
  vm_compute. reflexivity.
Defined.

(** A request with Basic credentials and no cookie. *)
Lemma missing_token_is_required_witness :
  authenticate_token SimpleJwt.lib default_env unit
    (fun _ => inr (Some sample_user)) (fun _ => inr None)
    {| cookies := None; authorization := Some "Basic YW5hOnNlY3JldA==" |} 2000
  = Respond token_required.
Proof.
  apply (missing_token_is_required SimpleJwt.lib default_env unit
           (fun _ => inr (Some sample_user)) (fun _ => inr None)
           {| cookies := None; authorization := Some "Basic YW5hOnNlY3JldA==" |} 2000).
  - reflexivity.
  - right. eexists. split; [reflexivity|]. left. reflexivity.
Defined.

(** The sample access token in the cookie, the sample refresh token in the
    header: the header is not looked at. *)
Lemma cookie_takes_priority_witness :
  authenticate_token SimpleJwt.lib default_env unit
    (fun _ => inr (Some sample_user)) (fun _ => inr None)
    {| cookies := Some {[ "access_token" := sample_access ]};
       authorization := Some ("Bearer " ++ sample_refresh) |} 2000
  = authenticate_token SimpleJwt.lib default_env unit
      (fun _ => inr (Some sample_user)) (fun _ => inr None)
      {| cookies := Some {[ "access_token" := sample_access ]};
         authorization := None |} 2000.
Proof.
  apply (cookie_takes_priority SimpleJwt.lib default_env unit
           (fun _ => inr (Some sample_user)) (fun _ => inr None)
           {| cookies := Some {[ "access_token" := sample_access ]};
              authorization := Some ("Bearer " ++ sample_refresh) |} 2000 None).
  unfold cookie. cbn [cookies]. rewrite lookup_singleton_eq. reflexivity.
Defined.

(** The sample access token in the header, one second after the login. *)
Lemma gate_admits_only_verified_users_witness :
  exists token decoded user,
    fst (extract_token (bearer sample_access)) = Some token
    /\ token <> ""
    /\ verify_access_token SimpleJwt.lib default_env token 2000 = inr decoded
    /\ (fun _ : string => inr (Some sample_user) : result (option IUser))
         (access_user_id decoded) = inr (Some user)
    /\ "user-1" = user_oid user
    /\ ["player"] = roles user.
Proof.
  apply (gate_admits_only_verified_users SimpleJwt.lib default_env unit
           (fun _ => inr (Some sample_user)) (fun _ => inr None)
           (bearer sample_access) 2000
           {| id := "user-1"; user_email := Some "ana@example.com";
              user_roles := ["player"]; player_profile := None |}).
  vm_compute. reflexivity.
Defined.

(** The sample refresh token presented as an access token: the signature
    does not verify under the access secret. *)
Lemma unverified_token_is_rejected_witness :
  authenticate_token SimpleJwt.lib default_env unit
    (fun _ => inr (Some sample_user)) (fun _ => inr None)
    (bearer sample_refresh) 2000
  = Respond {| status := 401;
               body_error := "Error de autenticación";
               body_message := "Invalid access token" |}.
Proof.
  destruct (unverified_token_is_rejected SimpleJwt.lib default_env unit
              (fun _ => inr (Some sample_user)) (fun _ => inr None)
              (bearer sample_refresh) 2000 sample_refresh) as [Hbad _].
  - vm_compute. reflexivity.
  - intros H. vm_compute in H. discriminate.
  - eapply Hbad. vm_compute. reflexivity.
Defined.

(** Firebase was not initialised: any bearer token is answered as invalid. *)
Lemma firebase_failure_is_token_invalid_witness :
  FirebaseGate.authenticate_token false (fun _ => inr "firebase-uid") unit
    (fun _ => inr (Some sample_user)) (fun _ => inr None)
    (bearer "abc")
  = Respond FirebaseGate.token_invalid.
Proof.
  apply (firebase_failure_is_token_invalid false (fun _ => inr "firebase-uid") unit
           (fun _ => inr (Some sample_user)) (fun _ => inr None)
           (bearer "abc") "abc").
  - vm_compute. reflexivity.
  - discriminate.
  - left. reflexivity.
Defined.

(** A header that is the scheme alone. *)
Lemma firebase_gate_needs_the_header_witness :
  FirebaseGate.authenticate_token true (fun _ => inr "firebase-uid") unit
    (fun _ => inr (Some sample_user)) (fun _ => inr None)
    {| cookies := None; authorization := Some "Bearer" |}
  = Respond FirebaseGate.token_required.
Proof.
  apply (firebase_gate_needs_the_header true (fun _ => inr "firebase-uid") unit
           (fun _ => inr (Some sample_user)) (fun _ => inr None)
           {| cookies := None; authorization := Some "Bearer" |}).
  right. eexists. split; reflexivity.
Defined.

(** A call while the queue is absent, on the sample data. *)
Lemma degraded_call_is_the_rotation_witness :
  exists (k : nat) r c1,
    rotate_refresh_token SimpleJwt.lib SimpleJwt.digest default_env
      sample_refresh "unused" 5000 sample_store = (inr r, c1)
    /\ run SimpleJwt.lib SimpleJwt.digest default_env
         (Submit 0 sample_refresh 5000 :: rotate_alone 0 "unused" 5000 k)
         (initial false sample_store 5000) =
       Some {| store := c1;
               queue := None;
               waiting := [];
               running := [];
               rotations := [(sample_refresh, r)];
               returned := [(0%nat, sample_refresh, r)];
               clock := 5000 |}.
Proof.
  apply (degraded_call_is_the_rotation SimpleJwt.lib SimpleJwt.digest default_env
           (initial false sample_store 5000) 0%nat sample_refresh "unused" 5000);
    [reflexivity|vm_compute; discriminate|constructor].
Defined.

Lemma bearer_header_yields_token_witness :
  extract_refresh_token {| cookies := None; authorization := Some ("Token" ++ " " ++ "abc") |}
  = (Some "abc", Some from_header)
  /\ header_token {| cookies := None; authorization := Some ("Bearer " ++ "abc") |}
     = (Some "abc", Some from_header).
Proof.
  apply (bearer_header_yields_token None "Token" "abc").
  - discriminate.
  - reflexivity.
  - reflexivity.
  - reflexivity.
Defined.

(** The sample token sent in the header: the new pair comes back in the
    body and no cookie is written. *)
Lemma refresh_answers_on_the_channel_used_witness :
  exists resp,
    refresh sample_add_refresh_job (bearer sample_refresh) sample_store
    = (inr resp, sample_rotated_store)
    /\ http_status resp = 200
    /\ json_tokens resp = Some sample_next_pair
    /\ cookies_written resp = NoCookies.
Proof.
  destruct (refresh_answers_on_the_channel_used sample_add_refresh_job
              (bearer sample_refresh) sample_store sample_refresh (Some from_header)
              (rotation_success sample_next_pair) sample_rotated_store)
    as (resp & Hresp & Hok & _).
  - vm_compute. reflexivity.
  - intros H. vm_compute in H. discriminate.
  - vm_compute. reflexivity.
  - destruct (Hok sample_next_pair eq_refl eq_refl) as (Hs & Ht & _ & _ & Hc).
    exists resp. split; [exact Hresp|]. split; [exact Hs|].
    split; [apply Ht; reflexivity|apply Hc; discriminate].
Defined.

(** A request with neither cookie nor header. *)
Lemma refresh_without_token_is_refused_witness :
  refresh sample_add_refresh_job {| cookies := None; authorization := None |} sample_store
  = (inr refresh_token_required, sample_store).
Proof.
  apply (refresh_without_token_is_refused sample_add_refresh_job
           {| cookies := None; authorization := None |} sample_store).
  - reflexivity.
  - left. reflexivity.
Defined.

(** The sample login: seven days from 1000 ms. *)
Lemma refresh_cookie_max_age_is_record_lifetime_witness :
  exists rec,
    lookup_token SimpleJwt.digest (refresh_token sample_pair) sample_store = Some rec
    /\ calculate_expiry (refresh_expires_in sample_pair) 1000
       = inr (Some (expires_at rec))
    /\ set_auth_cookies (access_token sample_pair) (refresh_token sample_pair)
         (refresh_expires_in sample_pair)
       = SetAuthCookies (access_token sample_pair) (refresh_token sample_pair) 900000
           (Some (expires_at rec - 1000)).
Proof.
  apply (refresh_cookie_max_age_is_record_lifetime SimpleJwt.lib SimpleJwt.digest default_env
           "user-1" web None "family-1" 1000 [] sample_pair sample_store).
  vm_compute. reflexivity.
Defined.

(** The sample token after every token of its user was revoked. *)
Lemma revoked_user_cannot_rotate_witness :
  exists r c2,
    rotate_refresh_token SimpleJwt.lib SimpleJwt.digest default_env sample_refresh "unused" 5000
      (snd (revoke_all_user_tokens "user-1" sample_store)) = (inr r, c2)
    /\ success r = false.
Proof.
  apply (revoked_user_cannot_rotate SimpleJwt.lib SimpleJwt.digest default_env
           "user-1" sample_refresh "unused" 5000 sample_store sample_record).
  - vm_compute. reflexivity.
  - reflexivity.
Defined.

(** Two callers present the sample token at 5000 ms while the queue is
    absent, and their calls overlap. *)
Lemma overlapping_calls_escape_reuse_detection_witness :
  exists r c1,
    rotate_refresh_token SimpleJwt.lib SimpleJwt.digest default_env
      sample_refresh "unused" 5000 sample_store = (inr r, c1)
    /\ run SimpleJwt.lib SimpleJwt.digest default_env
         (overlapped 0 1 sample_refresh "unused" 5000)
         (initial false sample_store 5000) =
       Some {| store := c1;
               queue := None;
               waiting := [];
               running := [];
               rotations := [(sample_refresh, r);
                             (sample_refresh, rotation_failure "Failed to refresh token")];
               returned := [(0%nat, sample_refresh, r);
                            (1%nat, sample_refresh,
                             rotation_failure "Failed to refresh token")];
               clock := 5000 |}.
Proof.
  apply (overlapping_calls_escape_reuse_detection SimpleJwt.lib SimpleJwt.digest
           default_env (initial false sample_store 5000) 0%nat 1%nat sample_refresh
           "unused" 5000
           {| refresh_user_id := "user-1"; refresh_family_id := "family-1";
              refresh_device_type := web |}
           sample_record).
  - reflexivity.
  - reflexivity.
  - vm_compute. discriminate.
  - discriminate.
  - vm_compute. reflexivity.
  - vm_compute. reflexivity.
  - split; [reflexivity|]. vm_compute. discriminate.
Defined.
